(** * Jarvis core runtime: intent registry, router and dispatcher

    A shallow embedding of [core.py] (class [JarCore] and the helpers
    it builds intents with), followed by the properties of discovery,
    routing and dispatch.

    Conventions of the embedding:
    - Python [float] scores are exact rationals ([Q]); the constants
      0.6, 0.4 and 0.55 are the rationals they denote.
    - Exceptions are the subclasses of [Exception]; a call either
      returns a value or raises one of them ([outcome]).
    - The spaCy pipeline is an external collaborator: it is a record
      of operations ([Spacy]) the whole development is parametric in.
    - Handlers see the core through its mutable [session] dictionary;
      the state a handler call leaves behind is threaded explicitly,
      so nothing is rolled back when a call raises. *)

From Stdlib Require Import QArith Qround Qabs Qpower Lqa.
From Stdlib Require Import PrimFloat.
From Stdlib Require FloatOps SpecFloat.
From stdpp Require Import gmap strings list fin_maps sorting.

(** ** Python values, exceptions and results *)

Module Py.

(** The values the model lets a handler return or keep in the session. *)
#[warnings="-register-all"]
Inductive value :=
| PyNone
| PyStr (s : string)
| PyInt (z : Z)
| PyList (l : list value).

(** Exceptions (all below [Exception]), with what [str(e)] needs. *)
Inductive exn :=
| TypeError (msg : string)
| KeyError (key_repr : string)
| AttributeError (msg : string)
| ModuleNotFoundError (name : option string) (msg : string)
| CalledProcessError (msg : string)
| OtherException (msg : string).

(** [repr] of a string (one without quotes or escapes in it). *)
Definition repr_str (s : string) : string := "'" +:+ s +:+ "'".

(** [str(e)]; a [KeyError] carries the [repr] of the missing key,
    which is what its [str] shows. *)
Definition str (e : exn) : string :=
  match e with
  | TypeError m | AttributeError m | ModuleNotFoundError _ m
  | CalledProcessError m | OtherException m => m
  | KeyError k => k
  end.

Inductive outcome (A : Type) :=
| Returned (a : A)
| Raised (e : exn).
Arguments Returned {A} a.
Arguments Raised {A} e.

#[global] Instance outcome_ret : MRet outcome := fun A a => Returned a.

#[global] Instance outcome_bind : MBind outcome := fun A B k m =>
  match m with
  | Returned a => k a
  | Raised e => Raised e
  end.

(** The session dictionary [Dict[str, Any]] shared with every handler. *)
Abbreviation Session := (gmap string value).

(** A computation that may change the session and may raise: the
    session it leaves is kept in both cases. *)
Definition action (A : Type) := Session -> outcome A * Session.

(** Positional arguments a handler is called with. [ArgCore] is the
    reference to the core object, whose mutable part is the session
    the call runs in. *)
Inductive arg :=
| ArgText (s : string)
| ArgCore.

(** A Python function: the numbers of positional arguments its
    signature accepts, the message of the [TypeError] the call
    machinery raises otherwise, and its body. *)
Record pyfunc := {
  accepts : nat -> bool;
  sig_error : nat -> string;
  body : list arg -> action value;
}.

(** Calling [f] on [args]: a rejected signature raises [TypeError]
    before the body runs, so the session is untouched. *)
Definition call (f : pyfunc) (args : list arg) : action value :=
  fun s =>
    if accepts f (length args) then body f args s
    else (Raised (TypeError (sig_error f (length args))), s).

(** Attributes of a module and raw handlers of a descriptor: a
    function, or something that is not callable (with its [repr]). *)
Inductive object :=
| Func (f : pyfunc)
| NotCallable (repr : string).

End Py.
Import Py.

(** ** Intents *)

(** The type of [Intent.handler]: called as [handler(user_text, core)]. *)
Definition Handler := string -> action value.

Record Intent := {
  name : string;
  examples : list string;
  handler : Handler;
  plugin : string;
  description : string;
  threshold : Q;
}.

(** The closure [_wrapped] that [_intent_from_dict] stores as handler
    ([_fn] is its default argument bound to the raw callable). *)
Definition _wrapped (_fn : pyfunc) : Handler :=
  fun user_text s0 =>
    match call _fn [ArgText user_text; ArgCore] s0 with
    | (Raised (TypeError _), s1) =>
        match call _fn [ArgText user_text] s1 with
        | (Raised (TypeError _), s2) => call _fn [] s2
        | r => r
        end
    | r => r
    end.

(** ** The spaCy collaborator *)

(** What the core uses of the language pipeline [self.nlp] and of
    [spacy.matcher.PhraseMatcher]. [nlp] and [make_doc] accept every
    string; [similarity] may raise; [doc_len] is [len(doc)], which
    decides the truth value of a [Doc];
    [pattern_in] tells whether a pattern document occurs in a document
    under the matcher's [LOWER] attribute; [format_reason] is the
    f-string that renders the two score components. *)
Record Spacy := {
  Doc : Type;
  nlp : string -> Doc;
  make_doc : string -> Doc;
  doc_len : Doc -> nat;
  similarity : Doc -> Doc -> outcome Q;
  pattern_in : Doc -> Doc -> bool;
  format_reason : Q -> Q -> string;
}.

(** ** Plugin sources *)

(** The handler entry of a descriptor: an attribute name of the
    module, or the object itself. *)
Inductive handler_ref :=
| ByName (attr : string)
| Direct (o : object).

(** An intent descriptor, a [dict]: every key may be missing. *)
Record Descriptor := {
  d_name : option string;
  d_examples : option (list string);
  d_handler : option handler_ref;
  d_threshold : option Q;
  d_description : option string;
}.

(** A loaded plugin module: its [INTENTS] attribute when it has one,
    and its other attributes. *)
Record PyModule := {
  INTENTS : option (list Descriptor);
  attrs : gmap string object;
}.

(** A file of the modules directory: the [name] and [stem] of its
    path, what executing it does the first time, what installing a
    missing package does, and what executing it again does then. *)
Record PluginFile := {
  path_name : string;
  path_stem : string;
  exec_module : outcome PyModule;
  pip_install : string -> outcome unit;
  exec_module_again : outcome PyModule;
}.

Record IntentMatch := {
  intent : Intent;
  score : Q;
  reason : string;
}.

(** ** The core *)

Section Core.

Context (sp : Spacy).

(** The phrase matcher: the keys added to it, each with its patterns. *)
Definition Matcher := list (string * list (Doc sp)).

(** The fields of a [JarCore] object that discovery, routing and
    dispatch read or write. *)
Record JarCore := {
  session : Session;
  _intents : list Intent;
  _example_docs : gmap (string * string) (Doc sp);
  _phrase_matcher : option Matcher;
  _plugin_errors : gmap string string;
}.

Definition set_session (st : JarCore) (s : Session) : JarCore :=
  {| session := s; _intents := _intents st;
     _example_docs := _example_docs st;
     _phrase_matcher := _phrase_matcher st;
     _plugin_errors := _plugin_errors st |}.

Definition set_intents (st : JarCore) (l : list Intent) : JarCore :=
  {| session := session st; _intents := l;
     _example_docs := _example_docs st;
     _phrase_matcher := _phrase_matcher st;
     _plugin_errors := _plugin_errors st |}.

Definition set_example_docs (st : JarCore)
    (m : gmap (string * string) (Doc sp)) : JarCore :=
  {| session := session st; _intents := _intents st;
     _example_docs := m;
     _phrase_matcher := _phrase_matcher st;
     _plugin_errors := _plugin_errors st |}.

Definition set_phrase_matcher (st : JarCore) (m : option Matcher) : JarCore :=
  {| session := session st; _intents := _intents st;
     _example_docs := _example_docs st;
     _phrase_matcher := m;
     _plugin_errors := _plugin_errors st |}.

Definition set_plugin_errors (st : JarCore) (m : gmap string string) : JarCore :=
  {| session := session st; _intents := _intents st;
     _example_docs := _example_docs st;
     _phrase_matcher := _phrase_matcher st;
     _plugin_errors := m |}.

(** *** Registration *)

(** The loop of [register_intent] over the examples. *)
Definition cache_examples (n : string) (exs : list string)
    (m : gmap (string * string) (Doc sp)) : gmap (string * string) (Doc sp) :=
  foldl (fun m ex => <[(n, ex) := nlp sp ex]> m) m exs.

Definition register_intent (st : JarCore) (i : Intent) : JarCore :=
  set_example_docs (set_intents st (_intents st ++ [i]))
    (cache_examples (name i) (examples i) (_example_docs st)).

Definition _build_matchers (st : JarCore) : JarCore :=
  set_phrase_matcher st
    (Some (map (fun i => (name i, map (make_doc sp) (examples i))) (_intents st))).

(** *** Loading a plugin file *)

Definition _extract_intents (module : PyModule) : list Descriptor :=
  let found := default [] (INTENTS module) in
  match found, attrs module !! "chat_with_jarvis" with
  | [], Some _ =>
      [ {| d_name := Some "chat";
           d_examples := Some ["talk"; "chat"; "hey"];
           d_handler := Some (ByName "chat_with_jarvis");
           d_threshold := None; d_description := None |} ]
  | _, _ => found
  end.

(** [d[key]] *)
Definition getitem {A} (field : option A) (key : string) : outcome A :=
  match field with
  | Some a => Returned a
  | None => Raised (KeyError (repr_str key))
  end.

(** [getattr(module, attr)] on the module [modules.<plugin_name>] *)
Definition getattr (module : PyModule) (plugin_name attr : string) : outcome object :=
  match attrs module !! attr with
  | Some o => Returned o
  | None =>
      Raised (AttributeError
        ("module 'modules." +:+ plugin_name +:+ "' has no attribute '" +:+ attr +:+ "'"))
  end.

Definition not_callable_msg (d : Descriptor) (raw_repr : string) : string :=
  "Handler for intent '" +:+
  match d_name d with Some n => n | None => "None" end +:+
  "' is not callable: " +:+ raw_repr.

Definition _intent_from_dict (d : Descriptor) (module : PyModule)
    (plugin_name : string) : outcome Intent :=
  h ← getitem (d_handler d) "handler";
  raw ← match h with
        | ByName attr => getattr module plugin_name attr
        | Direct o => Returned o
        end;
  _fn ← match raw with
        | Func f => Returned f
        | NotCallable r => Raised (TypeError (not_callable_msg d r))
        end;
  n ← getitem (d_name d) "name";
  exs ← getitem (d_examples d) "examples";
  Returned {| name := n; examples := exs; handler := _wrapped _fn;
              plugin := plugin_name; description := "";
              threshold := default (55 # 100) (d_threshold d) |}.

(** The truth value of [missing = getattr(e, "name", None)]. *)
Definition truthy_name (missing : option string) : option string :=
  match missing with
  | Some "" | None => None
  | Some n => Some n
  end.

(** Executing the module, with one repair attempt when a module it
    imports is missing. *)
Definition load_module (f : PluginFile) : outcome PyModule :=
  match exec_module f with
  | Raised (ModuleNotFoundError missing msg) =>
      match truthy_name missing with
      | Some pkg => _ ← pip_install f pkg; exec_module_again f
      | None => Raised (ModuleNotFoundError missing msg)
      end
  | r => r
  end.

(** The loop [for d in intent_dicts] of [_load_plugin_file]: intents
    registered before a descriptor fails stay registered. *)
Fixpoint register_dicts (st : JarCore) (module : PyModule) (plugin_name : string)
    (ds : list Descriptor) : outcome unit * JarCore :=
  match ds with
  | [] => (Returned tt, st)
  | d :: rest =>
      match _intent_from_dict d module plugin_name with
      | Returned i => register_dicts (register_intent st i) module plugin_name rest
      | Raised e => (Raised e, st)
      end
  end.

(** The body of the [try] of [_load_plugin_file]. *)
Definition load_and_register (st : JarCore) (f : PluginFile) : outcome unit * JarCore :=
  match load_module f with
  | Returned module =>
      register_dicts st module (path_stem f) (_extract_intents module)
  | Raised e => (Raised e, st)
  end.

(** [_load_plugin_file] for a load in which every exception raised
    is below [Exception], as all of [exn] are, so that the [except
    Exception] clause catches it. A load that an exception outside
    [Exception] cuts short is [_load_plugin_file_or_exit] below. *)
Definition _load_plugin_file (st : JarCore) (f : PluginFile) : JarCore :=
  match load_and_register st f with
  | (Returned _, st') => st'
  | (Raised e, st') =>
      set_plugin_errors st' (<[path_stem f := str e]> (_plugin_errors st'))
  end.

(** *** Discovery *)

(** The order of [sorted] on the paths of one directory. *)
Definition path_le (a b : PluginFile) : Prop :=
  String.leb (path_name a) (path_name b) = true.

#[global] Instance path_le_dec a b : Decision (path_le a b).
Proof. unfold path_le. apply _. Defined.

Definition discover_step (st : JarCore) (f : PluginFile) : JarCore :=
  if String.prefix "_" (path_name f) then st else _load_plugin_file st f.

(** [files] is what [self.modules_dir.glob("*.py")] yields. *)
Definition discover_plugins (st : JarCore) (files : list PluginFile) : JarCore :=
  _build_matchers
    (foldl discover_step (set_intents st []) (merge_sort path_le files)).

(** [JarCore.__init__] *)
Definition init (files : list PluginFile) : JarCore :=
  discover_plugins
    {| session := {[ "identity" := PyStr "Jarvis, an AI assistant" ]};
       _intents := []; _example_docs := ∅;
       _phrase_matcher := None; _plugin_errors := ∅ |}
    files.

(** *** Routing *)

(** [a < b] on scores. *)
Definition Qltb (a b : Q) : bool := negb (Qle_bool b a).

(** [max] with a key function on a non-empty sequence whose first
    item is [cur]: a later item replaces the running maximum only
    when its key is strictly greater. *)
Fixpoint max_from {A} (key : A -> Q) (cur : A) (l : list A) : A :=
  match l with
  | [] => cur
  | x :: rest => max_from key (if Qltb (key cur) (key x) then x else cur) rest
  end.

(** [max(l, key=key) if l else None] *)
Definition max_by {A} (key : A -> Q) (l : list A) : option A :=
  match l with
  | [] => None
  | x :: rest => Some (max_from key x rest)
  end.

(** [max(l or [0])] *)
Definition max_or_zero (l : list Q) : Q :=
  match l with
  | [] => 0
  | x :: rest => max_from id x rest
  end.

(** The keys of the matches [self._phrase_matcher(doc)] reports. *)
Definition matcher_hits (m : Matcher) (doc : Doc sp) : list string :=
  map fst (filter (fun e => existsb (fun pat => pattern_in sp pat doc) (snd e) = true) m).

Definition phrase_hits (st : JarCore) (doc : Doc sp) : list string :=
  match _phrase_matcher st with
  | Some m => matcher_hits m doc
  | None => []
  end.

(** [self._example_docs[key]] *)
Definition example_doc (st : JarCore) (key : string * string) : outcome (Doc sp) :=
  match _example_docs st !! key with
  | Some d => Returned d
  | None =>
      Raised (KeyError ("(" +:+ repr_str (fst key) +:+ ", " +:+ repr_str (snd key) +:+ ")"))
  end.

(** The list comprehension of [route]: for each example in turn, the
    condition looks the cached document up and tests it, then the
    element looks it up again and computes the similarity. *)
Fixpoint similarities (st : JarCore) (doc : Doc sp) (n : string)
    (exs : list string) : outcome (list Q) :=
  match exs with
  | [] => Returned []
  | ex :: rest =>
      c ← example_doc st (n, ex);
      if (0 <? doc_len sp c)%nat then
        d ← example_doc st (n, ex);
        s ← similarity sp doc d;
        tl ← similarities st doc n rest;
        Returned (s :: tl)
      else similarities st doc n rest
  end.

Definition p_score_of (hits : list string) (i : Intent) : Q :=
  if bool_decide (name i ∈ hits) then 1 else 0.

(** [(s_score * 0.6) + (p_score * 0.4)] on exact rationals, without
    the rounding of floats; with it, the score is [final_score_b64]
    below. *)
Definition final_score_of (s_score p_score : Q) : Q :=
  (s_score * (6 # 10)) + (p_score * (4 # 10)).

(** One iteration of the loop of [route]. *)
Definition score_intent (st : JarCore) (doc : Doc sp) (hits : list string)
    (i : Intent) : outcome IntentMatch :=
  sims ← similarities st doc (name i) (examples i);
  let p_score := p_score_of hits i in
  let s_score := max_or_zero sims in
  Returned {| intent := i; score := final_score_of s_score p_score;
              reason := format_reason sp s_score p_score |}.

(** The list [matches] the loop of [route] builds. *)
Definition matches (st : JarCore) (user_text : string) : outcome (list IntentMatch) :=
  let doc := nlp sp user_text in
  mapM (score_intent st doc (phrase_hits st doc)) (_intents st).

Definition route (st : JarCore) (user_text : string) : outcome (option IntentMatch) :=
  ms ← matches st user_text;
  Returned (max_by score ms).

(** *** Dispatch *)

(** Calling a handler with [(user_text, self)]. *)
Definition invoke (h : Handler) (user_text : string) (st : JarCore)
    : outcome value * JarCore :=
  let '(r, s) := h user_text (session st) in (r, set_session st s).

(** The branch of [handle] taken under [not best or best.score < 0.4]. *)
Definition chat_fallback (st : JarCore) (user_text : string) : outcome value * JarCore :=
  match find (fun i => String.eqb (name i) "chat") (_intents st) with
  | Some chat => invoke (handler chat) user_text st
  | None => (Returned (PyStr "I don't understand."), st)
  end.

Definition handle (st : JarCore) (user_text : string) : outcome value * JarCore :=
  match route st user_text with
  | Raised e => (Raised e, st)
  | Returned None => chat_fallback st user_text
  | Returned (Some best) =>
      if Qltb (score best) (4 # 10) then chat_fallback st user_text
      else invoke (handler (intent best)) user_text st
  end.

End Core.

Arguments session {sp} _.
Arguments _intents {sp} _.
Arguments _example_docs {sp} _.
Arguments _phrase_matcher {sp} _.
Arguments _plugin_errors {sp} _.
Arguments set_session {sp} st s.
Arguments set_intents {sp} st l.
Arguments set_example_docs {sp} st m.
Arguments set_phrase_matcher {sp} st m.
Arguments set_plugin_errors {sp} st m.
Arguments register_intent {sp} st i.
Arguments _build_matchers {sp} st.
Arguments register_dicts {sp} st module plugin_name ds.
Arguments load_and_register {sp} st f.
Arguments _load_plugin_file {sp} st f.
Arguments discover_step {sp} st f.
Arguments discover_plugins {sp} st files.
Arguments matcher_hits {sp} m doc.
Arguments phrase_hits {sp} st doc.
Arguments example_doc {sp} st key.
Arguments similarities {sp} st doc n exs.
Arguments score_intent {sp} st doc hits i.
Arguments matches {sp} st user_text.
Arguments route {sp} st user_text.
Arguments invoke {sp} h user_text st.
Arguments chat_fallback {sp} st user_text.
Arguments handle {sp} st user_text.

(** * Vocabulary of the properties *)

(** [r], at position [k] of [l], is the first item of [l] with the
    greatest key: no item has a greater key, and the items before
    position [k] have a strictly smaller one. *)
Definition first_max {A} (key : A -> Q) (l : list A) (k : nat) (r : A) : Prop :=
  l !! k = Some r /\
  (forall x, x ∈ l -> (key x <= key r)%Q) /\
  (forall j x, (j < k)%nat -> l !! j = Some x -> (key x < key r)%Q).

(** A handler result that is not a [TypeError]. *)
Definition no_TypeError (r : outcome value * Session) : Prop :=
  forall msg s, r <> (Raised (TypeError msg), s).

(** The usable example embeddings of an intent: the cached documents
    of its examples that are not empty. *)
Definition usable_docs {sp} (st : JarCore sp) (i : Intent) : list (Doc sp) :=
  filter (fun d => (0 < doc_len sp d)%nat)
    (omap (fun ex => _example_docs st !! (name i, ex)) (examples i)).

(** [s] is the semantic score of [i] for the input document [doc]:
    the greatest similarity of [doc] with a usable example embedding
    of [i], and 0 when there is none. *)
Definition semantic_score {sp} (st : JarCore sp) (doc : Doc sp) (i : Intent)
    (s : Q) : Prop :=
  match usable_docs st i with
  | [] => s = 0%Q
  | ds =>
      (exists d, (d ∈ ds) /\ similarity sp doc d = Returned s) /\
      (forall d, d ∈ ds -> exists q, similarity sp doc d = Returned q /\ (q <= s)%Q)
  end.

(** [p] is the lexical hit of [i]: 1 when the phrase index reports
    the name of [i] for [doc], else 0. *)
Definition lexical_hit {sp} (st : JarCore sp) (doc : Doc sp) (i : Intent)
    (p : Q) : Prop :=
  ((name i ∈ phrase_hits st doc) /\ p = 1%Q) \/
  ((name i ∉ phrase_hits st doc) /\ p = 0%Q).

(** Every example of every registered intent has a cached embedding. *)
Definition cache_complete {sp} (st : JarCore sp) : Prop :=
  forall i ex, i ∈ _intents st -> ex ∈ examples i ->
    is_Some (_example_docs st !! (name i, ex)).

(** The similarity of the embedding provider is defined on all
    documents and lies in [0,1]. *)
Definition similarity_in_unit (sp : Spacy) : Prop :=
  forall d d', exists q, similarity sp d d' = Returned q /\ (0 <= q <= 1)%Q.

(** Two intents that differ at most in their threshold. *)
Definition same_but_threshold (i1 i2 : Intent) : Prop :=
  name i1 = name i2 /\ examples i1 = examples i2 /\
  handler i1 = handler i2 /\ plugin i1 = plugin i2 /\
  description i1 = description i2.

(** Two registry states that differ at most in the thresholds stored
    in their intents. *)
Definition same_but_thresholds {sp} (st1 st2 : JarCore sp) : Prop :=
  session st1 = session st2 /\
  Forall2 same_but_threshold (_intents st1) (_intents st2) /\
  _example_docs st1 = _example_docs st2 /\
  _phrase_matcher st1 = _phrase_matcher st2 /\
  _plugin_errors st1 = _plugin_errors st2.

(** Two results of [route] that agree: the same exception, or no
    match twice, or the intents at one position of the two
    registries with the same score and reason. *)
Definition same_choice {sp} (st1 st2 : JarCore sp)
    (r1 r2 : outcome (option IntentMatch)) : Prop :=
  match r1, r2 with
  | Raised e1, Raised e2 => e1 = e2
  | Returned None, Returned None => True
  | Returned (Some m1), Returned (Some m2) =>
      score m1 = score m2 /\ reason m1 = reason m2 /\
      exists k, _intents st1 !! k = Some (intent m1) /\
                _intents st2 !! k = Some (intent m2)
  | _, _ => False
  end.

(** Two outcomes agree: the same exception, or related values. *)
Definition same_scoring {A} (R : A -> A -> Prop) (r1 r2 : outcome A) : Prop :=
  match r1, r2 with
  | Returned a1, Returned a2 => R a1 a2
  | Raised e1, Raised e2 => e1 = e2
  | _, _ => False
  end.

(** Two matches with the same score and reason. *)
Definition same_score (m1 m2 : IntentMatch) : Prop :=
  score m1 = score m2 /\ reason m1 = reason m2.

(** The first intent named "chat" of a registry. *)
Definition first_chat (l : list Intent) (chat : Intent) : Prop :=
  exists l1 l2, l = l1 ++ chat :: l2 /\ name chat = "chat" /\
                forall i, i ∈ l1 -> name i <> "chat".

(** [set_threshold i t] is [i] with threshold [t]. *)
Definition set_threshold (i : Intent) (t : Q) : Intent :=
  {| name := name i; examples := examples i; handler := handler i;
     plugin := plugin i; description := description i; threshold := t |}.

(** A core with nothing registered. *)
Definition blank (sp : Spacy) : JarCore sp :=
  {| session := ∅; _intents := []; _example_docs := ∅;
     _phrase_matcher := None; _plugin_errors := ∅ |}.

(** What a plugin file contributes on its own: the intents
    [_load_plugin_file] registers from it, and the exception, if any,
    that ends its loading. *)
Definition file_intents (sp : Spacy) (f : PluginFile) : list Intent :=
  _intents (_load_plugin_file (blank sp) f).

Definition file_error (sp : Spacy) (f : PluginFile) : option exn :=
  match fst (load_and_register (blank sp) f) with
  | Raised e => Some e
  | Returned _ => None
  end.

(** The files [discover_plugins] does not skip. *)
Definition visible (f : PluginFile) : Prop :=
  String.prefix "_" (path_name f) = false.

#[global] Instance visible_dec f : Decision (visible f).
Proof. unfold visible. apply _. Defined.

(** The error map after a file has been processed. *)
Definition record_error (sp : Spacy) (errs : gmap string string)
    (f : PluginFile) : gmap string string :=
  if decide (visible f) then
    match file_error sp f with
    | Some e => <[path_stem f := str e]> errs
    | None => errs
    end
  else errs.

(** The keys [register_intent] caches embeddings under. *)
Definition example_keys (l : list Intent) : list (string * string) :=
  flat_map (fun i => map (fun ex => (name i, ex)) (examples i)) l.

(** The phrase index over the examples of a list of intents. *)
Definition phrase_index (sp : Spacy) (l : list Intent) :
    list (string * list (Doc sp)) :=
  map (fun i => (name i, map (make_doc sp) (examples i))) l.

(** The intents built from the descriptors of a module up to the
    first descriptor that fails, and how the loop over them ends. *)
Fixpoint build_intents (module : PyModule) (plugin_name : string)
    (ds : list Descriptor) : list Intent * outcome unit :=
  match ds with
  | [] => ([], Returned tt)
  | d :: rest =>
      match _intent_from_dict d module plugin_name with
      | Returned i =>
          let '(l, r) := build_intents module plugin_name rest in (i :: l, r)
      | Raised e => ([], Raised e)
      end
  end.

(** The same for a whole file, starting with its execution. *)
Definition file_build (f : PluginFile) : list Intent * outcome unit :=
  match load_module f with
  | Returned module => build_intents module (path_stem f) (_extract_intents module)
  | Raised e => ([], Raised e)
  end.

(** ** Handlers used as concrete inputs *)

Module Fixture.

(** [def echo(text, core): return text] *)
Definition echo : pyfunc :=
  {| accepts := Nat.eqb 2;
     sig_error := fun _ => "echo() takes 2 positional arguments";
     body := fun args s =>
       match args with
       | ArgText t :: _ => (Returned (PyStr t), s)
       | _ => (Returned PyNone, s)
       end |}.

(** [def shout(text): return text] *)
Definition shout : pyfunc :=
  {| accepts := Nat.eqb 1;
     sig_error := fun _ => "shout() takes 1 positional argument";
     body := fun args s =>
       match args with
       | ArgText t :: _ => (Returned (PyStr t), s)
       | _ => (Returned PyNone, s)
       end |}.

(** [session["n"]] read as a number. *)
Definition counter (s : Session) : Z :=
  match s !! "n" with
  | Some (PyInt z) => z
  | _ => 0
  end.

(** A handler taking any number of positional arguments: its body
    counts the execution in [session["n"]] and then raises a
    [TypeError] of its own (as [None + 1] does). *)
Definition flaky : pyfunc :=
  {| accepts := fun _ => true;
     sig_error := fun _ => "";
     body := fun _ s =>
       (Raised (TypeError "unsupported operand type(s) for +"),
        <["n" := PyInt (counter s + 1)]> s) |}.

(** A pipeline whose documents are the texts themselves: a text is
    as similar to itself as can be and a quarter similar to any other
    text; a pattern matches a document it occurs in. *)
Definition occurs_in (pat doc : string) : bool :=
  match String.index 0 pat doc with Some _ => true | None => false end.

Definition spacy : Spacy :=
  {| Doc := string; nlp := fun s => s; make_doc := fun s => s;
     doc_len := String.length;
     similarity := fun a b => Returned (if String.eqb a b then 1%Q else (1 # 4)%Q);
     pattern_in := occurs_in;
     format_reason := fun _ _ => "" |}.

(** The same pipeline, except that the similarity with the document
    of the text "boom" raises. *)
Definition spacy_raising : Spacy :=
  {| Doc := string; nlp := fun s => s; make_doc := fun s => s;
     doc_len := String.length;
     similarity := fun a b =>
       if String.eqb b "boom" then Raised (OtherException "no vectors")
       else Returned (if String.eqb a b then 1%Q else (1 # 4)%Q);
     pattern_in := occurs_in;
     format_reason := fun _ _ => "" |}.

Definition plugin_file (file stem : string) (m : outcome PyModule) : PluginFile :=
  {| path_name := file; path_stem := stem; exec_module := m;
     pip_install := fun _ => Returned tt; exec_module_again := m |}.

Definition descriptor (n : string) (exs : list string) (h : handler_ref)
    (th : option Q) : Descriptor :=
  {| d_name := Some n; d_examples := Some exs; d_handler := Some h;
     d_threshold := th; d_description := None |}.

Definition chat_py : PluginFile :=
  plugin_file "chat.py" "chat"
    (Returned
       {| INTENTS := Some [descriptor "chat" ["chat"; "hey"; "hello"; "hi"]
                             (ByName "handle_chat") (Some (2 # 10))];
          attrs := {[ "handle_chat" := Func echo ]} |}).

Definition weather_py : PluginFile :=
  plugin_file "weather.py" "weather"
    (Returned
       {| INTENTS := Some [descriptor "weather" ["weather today"]
                             (Direct (Func shout)) None];
          attrs := ∅ |}).

Definition broken_py : PluginFile :=
  plugin_file "broken.py" "broken" (Raised (OtherException "invalid syntax")).

Definition boom_py : PluginFile :=
  plugin_file "boom.py" "boom"
    (Returned
       {| INTENTS := Some [descriptor "boom" ["boom"] (Direct (Func echo)) None];
          attrs := ∅ |}).

(** The intents the files above contribute. *)
Definition chat_intent : Intent :=
  {| name := "chat"; examples := ["chat"; "hey"; "hello"; "hi"];
     handler := _wrapped echo; plugin := "chat"; description := "";
     threshold := 2 # 10 |}.

Definition weather_intent : Intent :=
  {| name := "weather"; examples := ["weather today"];
     handler := _wrapped shout; plugin := "weather"; description := "";
     threshold := 55 # 100 |}.

Definition boom_intent : Intent :=
  {| name := "boom"; examples := ["boom"];
     handler := _wrapped echo; plugin := "boom"; description := "";
     threshold := 55 # 100 |}.

(** A core started on a directory of three files, one of them broken. *)
Definition core3 : JarCore spacy := init spacy [weather_py; chat_py; broken_py].

(** A core whose first intent has an example the similarity fails on. *)
Definition core_raising : JarCore spacy_raising :=
  init spacy_raising [boom_py; chat_py].

(** A core started on the weather plugin alone. *)
Definition core_weather : JarCore spacy := init spacy [weather_py].

(** The same core with every threshold replaced by [t]. *)
Definition rethreshold {sp} (st : JarCore sp) (t : Q) : JarCore sp :=
  set_intents st (map (fun i => set_threshold i t) (_intents st)).

End Fixture.

(** * The rest of the runtime *)

(** ** Installing packages *)

(** [_pip_install] of [core.py]: [executable] is [sys.executable]
    and [check_call] is [subprocess.check_call]. *)
Definition _pip_install (executable : string)
    (check_call : list string -> outcome unit) (packages : list string)
    : outcome unit :=
  let pkgs := filter (fun p => p <> "") packages in
  match pkgs with
  | [] => Returned tt
  | _ => check_call ([executable; "-m"; "pip"; "install"; "--user"] ++ pkgs)
  end.

(** ** String methods and other builtins *)

(** The builtins the command loops and the chat plugin call:
    [s.strip()], [s.strip(chars)], [s.lower()], [str(result)] and the
    [re.sub] call of [_clean_model_output], which deletes the
    think blocks of a text. *)
Record Builtins := {
  strip : string -> string;
  strip_chars : string -> string -> string;
  lower : string -> string;
  str_value : value -> string;
  re_sub_think : string -> string;
}.

(** ** The command loops *)

(** The line feed as a string. *)
Definition newline : string := String (Ascii.ascii_of_nat 10) EmptyString.

(** What a call of [input] gives: a line, or a [KeyboardInterrupt];
    when the inputs are used up, [input] raises [EOFError]. *)
Inductive input_event :=
| Line (s : string)
| Interrupt.

(** What is written to the terminal: the prompt of [input], or the
    argument of a [print]. *)
Inductive output :=
| Prompt (s : string)
| Print (s : string).

(** How a loop ends: the exit command, the end of the input taken
    as a goodbye, or an exception nothing catches. *)
Inductive ending :=
| Quit
| InputEnded
| Uncaught (e : exn)
| UncaughtEOFError
| UncaughtKeyboardInterrupt.

Section Loops.

Context {sp : Spacy} (py : Builtins).

Definition emit (pre : list output) (r : list output * JarCore sp * ending)
    : list output * JarCore sp * ending :=
  let '(out, st, e) := r in (pre ++ out, st, e).

(** [print(f"Jarvis: {result}")] under [if result is not None] *)
Definition print_result (result : value) : list output :=
  match result with
  | PyNone => []
  | _ => [Print ("Jarvis: " +:+ str_value py result)]
  end.

(** The [while True] loop of [main] in [main.py]. *)
Fixpoint main_loop (st : JarCore sp) (ins : list input_event)
    : list output * JarCore sp * ending :=
  match ins with
  | [] | Interrupt :: _ =>
      ([Prompt "You: "; Print (newline +:+ "Jarvis: Goodbye.")], st, InputEnded)
  | Line raw :: rest =>
      let user_text := strip py raw in
      if String.eqb user_text "" then emit [Prompt "You: "] (main_loop st rest)
      else if bool_decide (lower py user_text ∈ ["exit"; "quit"]) then
        ([Prompt "You: "; Print "Jarvis: Goodbye."], st, Quit)
      else
        match handle st user_text with
        | (Returned result, st') =>
            emit (Prompt "You: " :: print_result result) (main_loop st' rest)
        | (Raised e, st') => ([Prompt "You: "], st', Uncaught e)
        end
  end.

(** [main] of [main.py], on the core [JarCore()] built from [files]. *)
Definition main (files : list PluginFile) (ins : list input_event)
    : list output * JarCore sp * ending :=
  emit [Print "Jarvis: Hi - I'm Jarvis, your personal AI assistant. Type 'exit' to quit."]
    (main_loop (init sp files) ins).

(** The [while True] loop under [if __name__ == "__main__"] of
    [core.py]. *)
Fixpoint core_loop (st : JarCore sp) (ins : list input_event)
    : list output * JarCore sp * ending :=
  match ins with
  | [] => ([Prompt "You: "], st, UncaughtEOFError)
  | Interrupt :: _ => ([Prompt "You: "], st, UncaughtKeyboardInterrupt)
  | Line raw :: rest =>
      let cmd := strip py raw in
      if String.eqb cmd "" then emit [Prompt "You: "] (core_loop st rest)
      else if bool_decide (lower py cmd ∈ ["exit"; "quit"]) then
        ([Prompt "You: "; Print "Jarvis: Goodbye."], st, Quit)
      else
        match handle st cmd with
        | (Returned result, st') =>
            emit (Prompt "You: " :: print_result result) (core_loop st' rest)
        | (Raised e, st') =>
            emit [Prompt "You: ";
                  Print "Jarvis: Something went wrong while handling that request."]
              (core_loop st' rest)
        end
  end.

(** The script of [core.py] run as a program. *)
Definition core_main (files : list PluginFile) (ins : list input_event)
    : list output * JarCore sp * ending :=
  emit [Print "Jarvis: Hi - I'm Jarvis, your personal AI assistant. How can I help you today?"]
    (core_loop (init sp files) ins).

End Loops.

(** ** The chat plugin *)

Module Chat.

(** A message of the conversation: [{"role": .., "content": ..}]. *)
Record message := {
  role : string;
  content : string;
}.

(** The values of the session the plugin can meet: a string, a list
    of messages, or an object of any other type that has no attribute
    [append] (a number, [None], a dict, ...), given by the name of
    its type. Objects other than lists with an [append] of their own
    are not among them. *)
Inductive chat_value :=
| CStr (s : string)
| CConversation (l : list message)
| CObject (type_name : string).

(** The name of the type of a value that has no attribute [append]. *)
Definition lacks_append (v : chat_value) : option string :=
  match v with
  | CStr _ => Some "str"
  | CConversation _ => None
  | CObject t => Some t
  end.

(** The message of the [AttributeError] of [v.append] on a value of
    the type named [t]. *)
Definition no_append_message (t : string) : string :=
  "'" +:+ t +:+ "' object has no attribute 'append'".

Abbreviation ChatSession := (gmap string chat_value).

(** The file [.env] next to the modules directory: absent, not
    readable, or its lines. *)
Inductive dotenv :=
| NoFile
| Unreadable (e : exn)
| Lines (l : list string).

(** What the plugin finds around it: the constant [API_KEY], the
    environment variable [GROQ_API_KEY], the file [.env], and the
    backend: what posting the conversation with a key yields as
    [data["choices"][0]["message"]["content"]], or the exception of
    the request or of reading its answer. *)
Record Env := {
  API_KEY : string;
  environ : option string;
  env_file : dotenv;
  post : string -> list message -> outcome (option string);
}.

Definition SYSTEM_PROMPT : string :=
  "You are Jarvis, a friendly, helpful, and highly capable personal AI assistant. " +:+
  "Always respond politely and clearly, with concise and actionable answers. " +:+
  "Never reveal internal reasoning. If you need to think, put it ONLY inside <think>...</think> tags. " +:+
  "Your output to the user must contain ONLY the final answer (no analysis, no scratchpad, no meta commentary).".

(** [line.split("=", 1)] for a line with an equals sign in it, and
    [None] for a line without. *)
Fixpoint split_eq (line : string) : option (string * string) :=
  match line with
  | EmptyString => None
  | String c rest =>
      if String.eqb (String c EmptyString) "=" then Some (EmptyString, rest)
      else match split_eq rest with
           | Some (k, v) => Some (String c k, v)
           | None => None
           end
  end.

(** The double quote character as a string. *)
Definition dquote : string := String (Ascii.ascii_of_nat 34) EmptyString.

Section Plugin.

Context (py : Builtins).

(** [val or None] *)
Definition or_None (val : string) : option string :=
  if String.eqb val "" then None else Some val.

(** The loop of [_read_dotenv_key] over the lines of the file. *)
Fixpoint scan_lines (lines : list string) : option string :=
  match lines with
  | [] => None
  | raw :: rest =>
      let line := strip py raw in
      if String.eqb line "" || String.prefix "#" line then scan_lines rest
      else
        match split_eq line with
        | None => scan_lines rest
        | Some (k, v) =>
            if String.eqb (strip py k) "GROQ_API_KEY" then
              or_None (strip_chars py "'" (strip_chars py dquote (strip py v)))
            else scan_lines rest
        end
  end.

Definition _read_dotenv_key (file : dotenv) : option string :=
  match file with
  | NoFile => None
  | Unreadable _ => None
  | Lines l => scan_lines l
  end.

Definition _get_api_key (env : Env) : option string :=
  let direct := strip py (API_KEY env) in
  match environ env with
  | Some (String c s) => Some (String c s)
  | _ =>
      match _read_dotenv_key (env_file env) with
      | Some (String c s) => Some (String c s)
      | _ => or_None direct
      end
  end.

(** [s.split(marker)[-1]]: what follows the last of the occurrences
    of [marker] that a scan from the left finds. *)
Fixpoint last_piece (fuel : nat) (marker s : string) : string :=
  match fuel with
  | O => s
  | S n =>
      match String.index 0 marker s with
      | Some i =>
          let k := (i + String.length marker)%nat in
          last_piece n marker (String.substring k (String.length s - k) s)
      | None => s
      end
  end.

(** One round of the loop over the markers. *)
Definition cut_marker (s marker : string) : string :=
  match String.index 0 marker s with
  | Some _ => strip py (last_piece (String.length s) marker s)
  | None => s
  end.

(** [text] is [None] when the content is not a string. *)
Definition _clean_model_output (text : option string) : string :=
  let s := strip py (default "" text) in
  if String.eqb s "" then s
  else
    foldl cut_marker (strip py (re_sub_think py s))
      ["FINAL ANSWER:"; "Final Answer:"; "FINAL:"; "Final:"].

(** [core.session.setdefault("conversation", [system])] *)
Definition setdefault_conversation (session : ChatSession)
    : chat_value * ChatSession :=
  match session !! "conversation" with
  | Some v => (v, session)
  | None =>
      let fresh := CConversation [ {| role := "system"; content := SYSTEM_PROMPT |} ] in
      (fresh, <["conversation" := fresh]> session)
  end.

(** [handle_chat(user_text, core)], on the session of [core]. The
    conversation is a list changed in place: the model stores the
    changed list back under its key. *)
Definition handle_chat (env : Env) (user_text : string) (session : ChatSession)
    : outcome string * ChatSession :=
  match _get_api_key env with
  | None => (Returned "To enable chat, set `GROQ_API_KEY`.", session)
  | Some api_key =>
      match setdefault_conversation session with
      | (CStr _, session1) =>
          (Raised (AttributeError "'str' object has no attribute 'append'"), session1)
      | (CObject t, session1) =>
          (Raised (AttributeError (no_append_message t)), session1)
      | (CConversation conversation, session1) =>
          let asked := conversation ++ [ {| role := "user"; content := user_text |} ] in
          match post env api_key asked with
          | Returned raw =>
              let ai_message := _clean_model_output raw in
              (Returned ai_message,
               <["conversation" :=
                   CConversation (asked ++ [ {| role := "assistant"; content := ai_message |} ])]>
                 session1)
          | Raised e =>
              (Returned ("Chat failed: " +:+ str e),
               <["conversation" := CConversation asked]> session1)
          end
      end
  end.

End Plugin.

End Chat.

(** ** Vocabulary of the further properties *)

(** The similarity of the embedding provider never raises. *)
Definition similarity_total (sp : Spacy) : Prop :=
  forall d d', exists q, similarity sp d d' = Returned q.

(** The intent the convention handler [chat_with_jarvis] of a plugin
    gets when the plugin lists no intents. *)
Definition convention_intent (raw : pyfunc) (plugin_name : string) : Intent :=
  {| name := "chat"; examples := ["talk"; "chat"; "hey"];
     handler := _wrapped raw; plugin := plugin_name; description := "";
     threshold := 55 # 100 |}.

(** A module that lists no intents: [INTENTS] is missing or empty. *)
Definition lists_no_intents (module : PyModule) : Prop :=
  INTENTS module = None \/ INTENTS module = Some [].

(** The message recorded last under the stem [k] by the files of
    [l], if any of them fails under that stem. *)
Definition last_error (sp : Spacy) (l : list PluginFile) (k : string)
    : option string :=
  foldl (fun acc f =>
           if decide (visible f /\ path_stem f = k) then
             match file_error sp f with
             | Some e => Some (str e)
             | None => acc
             end
           else acc) None l.



(** What a line of the file [.env] assigns to [GROQ_API_KEY], before
    the quotes are stripped: nothing for a blank line, a comment, a
    line without an equals sign, or the assignment of another key. *)
Definition key_assignment (py : Builtins) (raw : string) : option string :=
  let line := strip py raw in
  if String.eqb line "" || String.prefix "#" line then None
  else
    match Chat.split_eq line with
    | Some (k, v) =>
        if String.eqb (strip py k) "GROQ_API_KEY" then Some v else None
    | None => None
    end.

(** The messages a call of [handle_chat] sends and stores. *)
Definition user_message (text : string) : Chat.message :=
  {| Chat.role := "user"; Chat.content := text |}.

Definition assistant_message (text : string) : Chat.message :=
  {| Chat.role := "assistant"; Chat.content := text |}.

Definition system_message : Chat.message :=
  {| Chat.role := "system"; Chat.content := Chat.SYSTEM_PROMPT |}.

(** ** Further concrete inputs *)

Module Sample.

(** A handler of exactly two arguments whose body counts the
    execution and then raises a [TypeError] of its own. *)
Definition strict_flaky : pyfunc :=
  {| accepts := Nat.eqb 2;
     sig_error := fun _ => "strict() takes 2 positional arguments";
     body := fun _ s =>
       (Raised (TypeError "unsupported operand type(s) for +"),
        <["n" := PyInt (Fixture.counter s + 1)]> s) |}.

(** A plugin whose second descriptor has a handler that is not
    callable. *)
Definition partial_py : PluginFile :=
  Fixture.plugin_file "partial.py" "partial"
    (Returned
       {| INTENTS := Some
            [Fixture.descriptor "first" ["one"] (Direct (Func Fixture.echo)) None;
             Fixture.descriptor "second" ["two"] (Direct (NotCallable "42")) None;
             Fixture.descriptor "third" ["three"] (Direct (Func Fixture.echo)) None];
          attrs := ∅ |}).

Definition first_intent : Intent :=
  {| name := "first"; examples := ["one"]; handler := _wrapped Fixture.echo;
     plugin := "partial"; description := ""; threshold := 55 # 100 |}.

(** A plugin without [INTENTS] that defines [chat_with_jarvis]. *)
Definition legacy_module : PyModule :=
  {| INTENTS := None; attrs := {[ "chat_with_jarvis" := Func Fixture.echo ]} |}.

Definition legacy_py : PluginFile :=
  Fixture.plugin_file "legacy.py" "legacy" (Returned legacy_module).

(** A plugin with an empty [INTENTS] and nothing else. *)
Definition empty_module : PyModule := {| INTENTS := Some []; attrs := ∅ |}.

Definition empty_py : PluginFile :=
  Fixture.plugin_file "empty.py" "empty" (Returned empty_module).

(** A plugin that imports a module that is not installed and cannot
    be installed. *)
Definition net_py : PluginFile :=
  {| path_name := "net.py"; path_stem := "net";
     exec_module :=
       Raised (ModuleNotFoundError (Some "requests") "No module named 'requests'");
     pip_install := fun _ =>
       Raised (CalledProcessError "Command returned non-zero exit status 1.");
     exec_module_again := Returned empty_module |}.

(** A file the discovery skips. *)
Definition hidden_py : PluginFile :=
  Fixture.plugin_file "_util.py" "_util"
    (Returned
       {| INTENTS := Some [Fixture.descriptor "util" ["util"]
                             (Direct (Func Fixture.echo)) None];
          attrs := ∅ |}).

(** The builtins on texts of ASCII letters, blanks and punctuation
    without think blocks. *)
Fixpoint lstrip (s : string) : string :=
  match s with
  | String c rest => if Ascii.is_space c then lstrip rest else s
  | EmptyString => EmptyString
  end.

Definition ascii_strip (s : string) : string :=
  String.rev (lstrip (String.rev (lstrip s))).

Fixpoint lstrip_chars (chars s : string) : string :=
  match s with
  | String c rest =>
      match String.index 0 (String c EmptyString) chars with
      | Some _ => lstrip_chars chars rest
      | None => s
      end
  | EmptyString => EmptyString
  end.

Definition ascii_strip_chars (chars s : string) : string :=
  String.rev (lstrip_chars chars (String.rev (lstrip_chars chars s))).

Definition lower_ascii (c : Ascii.ascii) : Ascii.ascii :=
  let n := Ascii.nat_of_ascii c in
  if (65 <=? n)%nat && (n <=? 90)%nat then Ascii.ascii_of_nat (n + 32) else c.

Fixpoint ascii_lower (s : string) : string :=
  match s with
  | String c rest => String (lower_ascii c) (ascii_lower rest)
  | EmptyString => EmptyString
  end.

Definition builtins : Builtins :=
  {| strip := ascii_strip; strip_chars := ascii_strip_chars;
     lower := ascii_lower;
     str_value := fun v => match v with PyStr s => s | _ => "None" end;
     re_sub_think := fun s => s |}.

(** A backend that answers, and one that cannot be reached. *)
Definition env_up : Chat.Env :=
  {| Chat.API_KEY := ""; Chat.environ := Some "key-of-the-environment";
     Chat.env_file := Chat.NoFile;
     Chat.post := fun _ _ => Returned (Some "Hello.") |}.

Definition env_down : Chat.Env :=
  {| Chat.API_KEY := ""; Chat.environ := Some "key-of-the-environment";
     Chat.env_file := Chat.NoFile;
     Chat.post := fun _ _ => Raised (OtherException "connection refused") |}.

(** A session in which one exchange has taken place. *)
Definition talked : Chat.ChatSession :=
  {[ "conversation" :=
       Chat.CConversation
         [system_message; user_message "hi"; assistant_message "Hello."] ]}.

(** Handlers with results of their own: one that rings, one that
    greets whoever the text names and remembers having done so, and
    one that answers and counts the turns of the conversation. *)
Definition ring : pyfunc :=
  {| accepts := Nat.eqb 2;
     sig_error := fun _ => "ring() takes 2 positional arguments";
     body := fun _ s => (Returned (PyStr "ring"), s) |}.

Definition greet : pyfunc :=
  {| accepts := Nat.eqb 1;
     sig_error := fun _ => "greet() takes 1 positional argument";
     body := fun args s =>
       match args with
       | ArgText t :: _ =>
           (Returned (PyStr ("Hello, " +:+ t)), <["greeted" := PyStr t]> s)
       | _ => (Returned PyNone, s)
       end |}.

Definition talk : pyfunc :=
  {| accepts := Nat.eqb 2;
     sig_error := fun _ => "talk() takes 2 positional arguments";
     body := fun args s =>
       match args with
       | ArgText t :: _ =>
           (Returned (PyStr ("You said " +:+ t)),
            <["turns" := PyInt (match s !! "turns" with
                                | Some (PyInt z) => z + 1
                                | _ => 1
                                end)]> s)
       | _ => (Returned PyNone, s)
       end |}.

(** A directory of three plugins: an alarm, a chat whose handler is
    named in the module, and a greeter whose handler takes the text
    alone and is named in the module too. *)
Definition alarm_py : PluginFile :=
  Fixture.plugin_file "alarm.py" "alarm"
    (Returned
       {| INTENTS := Some [Fixture.descriptor "alarm" ["wake me"]
                             (Direct (Func ring)) None];
          attrs := ∅ |}).

Definition talk_module : PyModule :=
  {| INTENTS := Some [Fixture.descriptor "chat" ["hey"] (ByName "talk") None];
     attrs := {[ "talk" := Func talk ]} |}.

Definition talk_py : PluginFile :=
  Fixture.plugin_file "chat.py" "chat" (Returned talk_module).

Definition greet_descriptor : Descriptor :=
  Fixture.descriptor "greet" ["world"] (ByName "greet") None.

Definition greet_module : PyModule :=
  {| INTENTS := Some [greet_descriptor]; attrs := {[ "greet" := Func greet ]} |}.

Definition greet_py : PluginFile :=
  Fixture.plugin_file "greet.py" "greet" (Returned greet_module).

Definition alarm_intent : Intent :=
  {| name := "alarm"; examples := ["wake me"]; handler := _wrapped ring;
     plugin := "alarm"; description := ""; threshold := 55 # 100 |}.

Definition talk_intent : Intent :=
  {| name := "chat"; examples := ["hey"]; handler := _wrapped talk;
     plugin := "chat"; description := ""; threshold := 55 # 100 |}.

Definition greet_intent : Intent :=
  {| name := "greet"; examples := ["world"]; handler := _wrapped greet;
     plugin := "greet"; description := ""; threshold := 55 # 100 |}.

Definition house : JarCore Fixture.spacy :=
  init Fixture.spacy [greet_py; talk_py; alarm_py].

End Sample.

(** ** Calling a handler *)

(** [r] is what calling the handler [h] with the text and the core
    [st] gives: the result [h] returns or the exception it raises,
    and a core that has the session [h] left and is otherwise [st]. *)
Definition calls_handler {sp} (st : JarCore sp) (text : string) (h : Handler)
    (r : outcome value * JarCore sp) : Prop :=
  fst r = fst (h text (session st)) /\
  session (snd r) = snd (h text (session st)) /\
  _intents (snd r) = _intents st /\
  _example_docs (snd r) = _example_docs st /\
  _phrase_matcher (snd r) = _phrase_matcher st /\
  _plugin_errors (snd r) = _plugin_errors st.

(** ** From a descriptor to the call of its handler *)

(** The object a descriptor gives as its handler: the value under the
    key "handler", looked up as an attribute of the module when it is
    a string. *)
Definition descriptor_handler (d : Descriptor) (module : PyModule)
    : option object :=
  match d_handler d with
  | Some (ByName attr) => attrs module !! attr
  | Some (Direct o) => Some o
  | None => None
  end.

(** The handler [h] tries the function [raw] with the text and the
    core, then with the text alone, then without arguments: its
    result and the session it leaves are those of the first call
    whose signature is accepted. *)
Definition tries_arities (raw : pyfunc) (h : Handler) : Prop :=
  forall text s,
    (accepts raw 2 = true ->
     no_TypeError (body raw [ArgText text; ArgCore] s) ->
     h text s = body raw [ArgText text; ArgCore] s) /\
    (accepts raw 2 = false -> accepts raw 1 = true ->
     no_TypeError (body raw [ArgText text] s) ->
     h text s = body raw [ArgText text] s) /\
    (accepts raw 2 = false -> accepts raw 1 = false ->
     h text s = call raw [] s).

(** Routing the text on the core [c] chooses the intent [i] with a
    score that is not below the floor of [handle]. *)
Definition dispatched {sp} (c : JarCore sp) (text : string) (i : Intent)
    : Prop :=
  exists b, route c text = Returned (Some b) /\ intent b = i /\
            ~ (score b < 4 # 10)%Q.

(** ** Exceptions outside [Exception] *)

(** The exceptions that are not below [Exception], which
    [except Exception] does not catch. *)
Inductive base_exn :=
| SystemExit (code : Z)
| KeyboardInterrupt
| GeneratorExit.

(** What running the code of a plugin leads to: it finishes, with a
    value or an exception below [Exception], or it is cut short by an
    exception outside [Exception]. *)
Inductive attempt (A : Type) :=
| Finished (r : outcome A)
| Escaped (b : base_exn).
Arguments Finished {A} r.
Arguments Escaped {A} b.

(** A file of the modules directory together with the exceptions
    outside [Exception] that cut its loading short. When
    [exec_escape] is some [b], the first execution of the module
    raises [b] and what [exec_module] of the file says is not
    reached; [pip_escape] does the same for the installation of a
    missing package and [again_escape] for the second execution. *)
Record PluginSource := {
  source_file : PluginFile;
  exec_escape : option base_exn;
  pip_escape : string -> option base_exn;
  again_escape : option base_exn;
}.

(** The first [try] of [_load_plugin_file] with its [except
    ModuleNotFoundError] clause: an exception outside [Exception]
    leaves it from wherever it is raised. *)
Definition load_module_or_exit (src : PluginSource) : attempt PyModule :=
  match exec_escape src with
  | Some b => Escaped b
  | None =>
      match exec_module (source_file src) with
      | Raised (ModuleNotFoundError missing msg) =>
          match truthy_name missing with
          | Some pkg =>
              match pip_escape src pkg with
              | Some b => Escaped b
              | None =>
                  match pip_install (source_file src) pkg with
                  | Returned _ =>
                      match again_escape src with
                      | Some b => Escaped b
                      | None => Finished (exec_module_again (source_file src))
                      end
                  | Raised e => Finished (Raised e)
                  end
              end
          | None => Finished (Raised (ModuleNotFoundError missing msg))
          end
      | r => Finished r
      end
  end.

(** [_load_plugin_file] with the exceptions [except Exception] lets
    through: the core it leaves, and the exception that leaves it, if
    any. *)
Definition _load_plugin_file_or_exit {sp} (st : JarCore sp)
    (src : PluginSource) : JarCore sp * option base_exn :=
  let plugin_name := path_stem (source_file src) in
  match load_module_or_exit src with
  | Escaped b => (st, Some b)
  | Finished (Returned module) =>
      match register_dicts st module plugin_name (_extract_intents module) with
      | (Returned _, st') => (st', None)
      | (Raised e, st') =>
          (set_plugin_errors st' (<[plugin_name := str e]> (_plugin_errors st')),
           None)
      end
  | Finished (Raised e) =>
      (set_plugin_errors st (<[plugin_name := str e]> (_plugin_errors st)), None)
  end.

(** The loop of [discover_plugins] over the sorted paths: it ends
    with the first exception that leaves [_load_plugin_file]. *)
Fixpoint load_sources {sp} (st : JarCore sp) (srcs : list PluginSource)
    : JarCore sp * option base_exn :=
  match srcs with
  | [] => (st, None)
  | src :: rest =>
      if String.prefix "_" (path_name (source_file src)) then
        load_sources st rest
      else
        match _load_plugin_file_or_exit st src with
        | (st', None) => load_sources st' rest
        | (st', Some b) => (st', Some b)
        end
  end.

Definition source_le (a b : PluginSource) : Prop :=
  path_le (source_file a) (source_file b).

#[global] Instance source_le_dec a b : Decision (source_le a b).
Proof. unfold source_le. apply _. Defined.

(** [discover_plugins] with the exceptions that leave it: the phrase
    matcher is rebuilt only when the loop has come to its end. *)
Definition discover_plugins_or_exit {sp} (st : JarCore sp)
    (srcs : list PluginSource) : JarCore sp * option base_exn :=
  match load_sources (set_intents st []) (merge_sort source_le srcs) with
  | (st', None) => (_build_matchers st', None)
  | (st', Some b) => (st', Some b)
  end.

(** The exception outside [Exception] that loading a source raises,
    if any. *)
Definition load_escape (src : PluginSource) : option base_exn :=
  match load_module_or_exit src with
  | Escaped b => Some b
  | Finished _ => None
  end.

(** A source that is a visible file. *)
Definition loaded (src : PluginSource) : Prop := visible (source_file src).

Module Escapes.

(** A file whose loading nothing cuts short. *)
Definition undisturbed (f : PluginFile) : PluginSource :=
  {| source_file := f; exec_escape := None; pip_escape := fun _ => None;
     again_escape := None |}.

(** A plugin that calls [sys.exit(0)] before it defines its intents. *)
Definition quit_py : PluginSource :=
  {| source_file :=
       Fixture.plugin_file "quit.py" "quit"
         (Returned
            {| INTENTS := Some [Fixture.descriptor "quit" ["bye"]
                                  (Direct (Func Fixture.echo)) None];
               attrs := ∅ |});
     exec_escape := Some (SystemExit 0);
     pip_escape := fun _ => None;
     again_escape := None |}.

(** A directory with the chat plugin, the plugin that exits and the
    weather plugin, and one with a broken plugin in place of the
    plugin that exits. *)
Definition exiting : list PluginSource :=
  [undisturbed Fixture.weather_py; quit_py; undisturbed Fixture.chat_py].

Definition failing : list PluginSource :=
  [undisturbed Fixture.weather_py; undisturbed Fixture.broken_py;
   undisturbed Fixture.chat_py].

End Escapes.

(** ** Python floats *)

(** The arithmetic of Python's [float], IEEE 754 binary64 with
    rounding to nearest, ties to even, on finite values. A finite
    double is the rational it denotes. The products and the sum of
    the score formula stay below the overflow threshold on finite
    doubles, so rounding the exact result is all that happens. *)
Module B64.

Definition pow2 (e : Z) : Q := (2 ^ e)%Q.

(** The nearest integer, the even one of two that are as near. *)
Definition rne (x : Q) : Z :=
  let f := Qfloor x in
  match (x - inject_Z f ?= 1 # 2)%Q with
  | Lt => f
  | Gt => (f + 1)%Z
  | Eq => if Z.even f then f else (f + 1)%Z
  end.

(** The exponent of the greatest power of two not above [x > 0]. *)
Definition flog2 (x : Q) : Z :=
  let e := (Z.log2 (Qnum x) - Z.log2 (Zpos (Qden x)))%Z in
  if Qle_bool (pow2 e) x then e else (e - 1)%Z.

(** The exponent of the last of the 53 bits of the significand of a
    double near [x]; it is -1074 for the subnormal numbers. *)
Definition ulp_exp (x : Q) : Z := Z.max (flog2 (Qabs x) - 52) (-1074)%Z.

(** The double nearest to [x]. *)
Definition round (x : Q) : Q :=
  if Qeq_bool x 0 then 0%Q
  else (inject_Z (rne (x / pow2 (ulp_exp x))) * pow2 (ulp_exp x))%Q.

Definition mul (x y : Q) : Q := round (x * y).
Definition add (x y : Q) : Q := round (x + y).

(** The literals [0.6] and [0.4]. *)
Definition c06 : Q := round (6 # 10).
Definition c04 : Q := round (4 # 10).

End B64.

(** [(s_score * 0.6) + (p_score * 0.4)] on floats *)
Definition final_score_b64 (s_score p_score : Q) : Q :=
  B64.add (B64.mul s_score B64.c06) (B64.mul p_score B64.c04).

(** One iteration of the loop of [route], with the score a float. *)
Definition score_intent_b64 {sp} (st : JarCore sp) (doc : Doc sp)
    (hits : list string) (i : Intent) : outcome IntentMatch :=
  sims ← similarities st doc (name i) (examples i);
  let p_score := p_score_of hits i in
  let s_score := max_or_zero sims in
  Returned {| intent := i; score := final_score_b64 s_score p_score;
              reason := format_reason sp s_score p_score |}.

(** The list [matches] the loop of [route] builds, with the scores
    floats. *)
Definition matches_b64 {sp} (st : JarCore sp) (user_text : string)
    : outcome (list IntentMatch) :=
  let doc := nlp sp user_text in
  mapM (score_intent_b64 st doc (phrase_hits st doc)) (_intents st).

Module Faint.

(** A pipeline in which any two documents have the similarity 2^-60,
    and a core with the chat plugin on it. *)
Definition similarity_value : Q := 1 # 1152921504606846976.

Definition spacy : Spacy :=
  {| Doc := string; nlp := fun s => s; make_doc := fun s => s;
     doc_len := String.length;
     similarity := fun _ _ => Returned similarity_value;
     pattern_in := Fixture.occurs_in;
     format_reason := fun _ _ => "" |}.

Definition core : JarCore spacy := init spacy [Fixture.chat_py].

End Faint.

(** The rational a finite primitive float denotes; the floats of
    Rocq are binary64 too. *)
Definition float_value (f : PrimFloat.float) : option Q :=
  match FloatOps.Prim2SF f with
  | SpecFloat.S754_zero _ => Some 0%Q
  | SpecFloat.S754_finite s m e =>
      Some (inject_Z (if s then Z.neg m else Z.pos m) * B64.pow2 e)%Q
  | _ => None
  end.

(** [q] is the value of the float [f]. *)
Definition is_float (q : Q) (f : PrimFloat.float) : bool :=
  match float_value f with
  | Some v => Qeq_bool q v
  | None => false
  end.

(** [(s * 0.6) + (p * 0.4)] on primitive floats. *)
Definition final_score_float (s p : PrimFloat.float) : PrimFloat.float :=
  PrimFloat.add (PrimFloat.mul s (PrimFloat.div 6%float 10%float))
                (PrimFloat.mul p (PrimFloat.div 4%float 10%float)).

(** * Properties *)

(** ** The wrapped handler *)

Lemma call_accepted (f : pyfunc) (args : list arg) (s : Session) :
  accepts f (length args) = true -> call f args s = body f args s.
Proof. unfold call. by intros ->. Qed.

Lemma call_rejected (f : pyfunc) (args : list arg) (s : Session) :
  accepts f (length args) = false ->
  call f args s = (Raised (TypeError (sig_error f (length args))), s).
Proof. unfold call. by intros ->. Qed.

(** Whatever raised it, a [TypeError] of the two-argument call makes
    the wrapper go on to the one-argument call, in the session the
    failed call left. *)
Lemma wrapped_after_TypeError (f : pyfunc) (text : string) (s0 s1 : Session) msg :
  call f [ArgText text; ArgCore] s0 = (Raised (TypeError msg), s1) ->
  _wrapped f text s0 =
    match call f [ArgText text] s1 with
    | (Raised (TypeError _), s2) => call f [] s2
    | r => r
    end.
Proof. unfold _wrapped. by intros ->. Qed.

Lemma wrapped_no_TypeError (f : pyfunc) (text : string) (s : Session) :
  no_TypeError (call f [ArgText text; ArgCore] s) ->
  _wrapped f text s = call f [ArgText text; ArgCore] s.
Proof.
  unfold _wrapped, no_TypeError. intros H.
  destruct (call f [ArgText text; ArgCore] s) as [[v|[]] s1]; try done.
  by destruct (H msg s1).
Qed.

Lemma intent_from_dict_wrapped d module plugin_name i :
  _intent_from_dict d module plugin_name = Returned i ->
  exists f, handler i = _wrapped f.
Proof.
  unfold _intent_from_dict, getitem.
  destruct (d_handler d) as [h|]; [|done]. simpl.
  destruct (match h with ByName attr => _ | Direct o => _ end) as [raw|]; [|done].
  simpl. destruct raw as [f|r]; [|done]. simpl.
  destruct (d_name d); [|done]. destruct (d_examples d); [|done]. simpl.
  intros [= <-]. by exists f.
Qed.

(** C10. A TypeError raised inside the body triggers the fallback as
    a rejected signature does. When the two-argument call is accepted
    and its body raises TypeError, the wrapper calls the handler again
    with the text alone, in the session the failed run left, and on a
    TypeError of that call once more without arguments. So a handler
    whose signature also accepts one and no argument and whose body
    raises TypeError again runs three times in one dispatch, each run
    starting in the session the previous run left, and the result is
    that of the third run. *)
Theorem wrapped_reruns_on_body_TypeError (f : pyfunc) (text : string)
    (s0 s1 : Session) (m1 : string) :
  accepts f 2 = true ->
  body f [ArgText text; ArgCore] s0 = (Raised (TypeError m1), s1) ->
  _wrapped f text s0 =
    match call f [ArgText text] s1 with
    | (Raised (TypeError _), s2) => call f [] s2
    | r => r
    end /\
  (forall m2 s2,
     accepts f 1 = true -> accepts f 0 = true ->
     body f [ArgText text] s1 = (Raised (TypeError m2), s2) ->
     _wrapped f text s0 = body f [] s2).
Proof.
  intros A2 B1.
  assert (call f [ArgText text; ArgCore] s0 = (Raised (TypeError m1), s1)) as C1
    by (by rewrite call_accepted).
  split; [by apply (wrapped_after_TypeError f text s0 s1 m1)|].
  intros m2 s2 A1 A0 B2.
  rewrite (wrapped_after_TypeError f text s0 s1 m1 C1).
  rewrite (call_accepted f [ArgText text] s1 A1), B2.
  by apply call_accepted.
Qed.


(** ** Scores and [max] *)

Lemma Qltb_lt (a b : Q) : Qltb a b = true <-> (a < b)%Q.
Proof.
  unfold Qltb. rewrite negb_true_iff. split.
  - intros H. apply Qnot_le_lt. intros Hle.
    apply Qle_bool_iff in Hle. congruence.
  - intros H. destruct (Qle_bool b a) eqn:E; [|done].
    apply Qle_bool_iff in E. exfalso. by apply (Qlt_not_le a b).
Qed.

Lemma Qltb_ge (a b : Q) : Qltb a b = false <-> (b <= a)%Q.
Proof.
  unfold Qltb. rewrite negb_false_iff. apply Qle_bool_iff.
Qed.

Lemma max_from_first_max {A} (key : A -> Q) (l seen : list A) (cur : A) (k : nat) :
  first_max key seen k cur ->
  exists k', first_max key (seen ++ l) k' (max_from key cur l).
Proof.
  revert seen cur k. induction l as [|x rest IH]; intros seen cur k Hinv.
  - exists k. by rewrite app_nil_r.
  - destruct Hinv as (Hk & Hmax & Hfirst). simpl.
    replace (seen ++ x :: rest) with ((seen ++ [x]) ++ rest)
      by (by rewrite <- app_assoc).
    destruct (Qltb (key cur) (key x)) eqn:E.
    + apply Qltb_lt in E. apply (IH _ _ (length seen)). repeat split.
      * by rewrite lookup_app_r, Nat.sub_diag.
      * intros y [Hy | Hy%list_elem_of_singleton]%elem_of_app.
        -- apply Qlt_le_weak. eapply Qle_lt_trans; [by apply Hmax | done].
        -- subst y. apply Qle_refl.
      * intros j y Hj Hy. rewrite lookup_app_l in Hy by done.
        eapply Qle_lt_trans; [|exact E]. apply Hmax.
        by eapply list_elem_of_lookup_2.
    + apply Qltb_ge in E. apply (IH _ _ k). repeat split.
      * rewrite lookup_app_l; [done | by eapply lookup_lt_Some].
      * intros y [Hy | Hy%list_elem_of_singleton]%elem_of_app.
        -- by apply Hmax.
        -- by subst y.
      * intros j y Hj Hy. apply (Hfirst j y Hj).
        rewrite lookup_app_l in Hy; [done|].
        apply lookup_lt_Some in Hk. lia.
Qed.

Lemma max_by_first_max {A} (key : A -> Q) (l : list A) :
  l <> [] -> exists k r, max_by key l = Some r /\ first_max key l k r.
Proof.
  destruct l as [|x rest]; [done | intros _].
  destruct (max_from_first_max key rest [x] x 0) as [k Hk].
  - split; [done | split]; [|intros; lia].
    intros y ->%list_elem_of_singleton. apply Qle_refl.
  - exists k, (max_from key x rest). done.
Qed.

Lemma max_by_None {A} (key : A -> Q) (l : list A) :
  max_by key l = None <-> l = [].
Proof. by destruct l. Qed.

(** ** Loops that may raise *)

Lemma mapM_Returned {A B} (f : A -> outcome B) (l : list A) (ys : list B) :
  mapM f l = Returned ys <-> Forall2 (fun x y => f x = Returned y) l ys.
Proof.
  revert ys. induction l as [|x l IH]; intros ys; simpl.
  - split.
    + intros [= <-]. constructor.
    + by intros ->%Forall2_nil_inv_l.
  - split.
    + destruct (f x) as [y|e] eqn:Ex; [|done]. simpl.
      destruct (mapM f l) as [k|e]; [|done]. simpl.
      intros [= <-]. constructor; [done | by apply IH].
    + intros (y & k & Hy & Hk & ->)%Forall2_cons_inv_l.
      rewrite Hy. simpl. apply IH in Hk. by rewrite Hk.
Qed.

Lemma mapM_Raised {A B} (f : A -> outcome B) (l1 l2 : list A) (x : A) e :
  Forall (fun j => exists y, f j = Returned y) l1 ->
  f x = Raised e ->
  mapM f (l1 ++ x :: l2) = Raised e.
Proof.
  intros Hl1 Hx. induction Hl1 as [|j l1 [y Hy] _ IH]; simpl.
  - by rewrite Hx.
  - by rewrite Hy, IH.
Qed.

(** ** Routing *)

Section Routing.

Context {sp : Spacy}.
Implicit Types (st : JarCore sp) (i : Intent) (m : IntentMatch).

Lemma score_intent_Returned st doc hits i m :
  score_intent st doc hits i = Returned m ->
  exists sims,
    similarities st doc (name i) (examples i) = Returned sims /\
    m = {| intent := i;
           score := final_score_of (max_or_zero sims) (p_score_of hits i);
           reason := format_reason sp (max_or_zero sims) (p_score_of hits i) |}.
Proof.
  unfold score_intent.
  destruct (similarities st doc (name i) (examples i)) as [sims|e]; [|done].
  simpl. intros [= <-]. by exists sims.
Qed.

Lemma matches_intents st text ms :
  matches st text = Returned ms -> map intent ms = _intents st.
Proof.
  unfold matches. intros H%mapM_Returned.
  induction H as [|i m l k Hm _ IH]; [done|]. simpl. f_equal; [|done].
  apply score_intent_Returned in Hm as (sims & _ & ->). done.
Qed.

Lemma matches_nil st text :
  _intents st = [] -> matches st text = Returned [].
Proof. unfold matches. by intros ->. Qed.

Lemma route_Returned st text r :
  route st text = Returned r <->
  exists ms, matches st text = Returned ms /\ r = max_by score ms.
Proof.
  unfold route. destruct (matches st text) as [ms|e]; simpl.
  - split.
    + intros [= <-]. by exists ms.
    + by intros (? & [= <-] & ->).
  - split; [done|]. by intros (? & ? & _).
Qed.

Lemma route_Raised st text e :
  route st text = Raised e <-> matches st text = Raised e.
Proof. unfold route. destruct (matches st text); simpl; split; congruence. Qed.

(** C8. [route] returns [None] exactly when no intent is registered,
    and with no intent registered [handle] returns the fixed message
    and leaves the core as it is. *)
Theorem route_None_iff_no_intents st text :
  (route st text = Returned None <-> _intents st = []) /\
  (_intents st = [] ->
   handle st text = (Returned (PyStr "I don't understand."), st)).
Proof.
  assert (Hnil : _intents st = [] -> route st text = Returned None).
  { intros H. apply route_Returned. exists []. by rewrite matches_nil. }
  split; [split; [|done]|].
  - intros (ms & Hms & Hmax)%route_Returned.
    symmetry in Hmax. apply max_by_None in Hmax as ->.
    by apply matches_intents in Hms.
  - intros H. unfold handle, chat_fallback. by rewrite (Hnil H), H.
Qed.

Lemma route_picks_first_max st text ms :
  _intents st <> [] ->
  matches st text = Returned ms ->
  exists k best,
    route st text = Returned (Some best) /\
    _intents st !! k = Some (intent best) /\
    first_max score ms k best /\
    map intent ms = _intents st.
Proof.
  intros Hne Hms. pose proof (matches_intents _ _ _ Hms) as Hmap.
  destruct (max_by_first_max score ms) as (k & best & Hbest & Hfirst).
  { intros ->. by apply Hne. }
  exists k, best. split; [|split; [|done]].
  - apply route_Returned. by exists ms.
  - rewrite <- Hmap, list_lookup_fmap. by destruct Hfirst as [-> _].
Qed.

(** C9. With at least one intent registered and every intent scored,
    [route] returns the match of the intent with the highest final
    score, and among intents of equal highest score the one
    registered first: the match returned sits at a position [k] of
    the registry, no match has a greater score, and the matches of
    the intents before position [k] have a strictly smaller score. *)
Theorem route_first_highest st text ms :
  _intents st <> [] ->
  matches st text = Returned ms ->
  exists k best,
    route st text = Returned (Some best) /\
    _intents st !! k = Some (intent best) /\
    first_max score ms k best /\
    map intent ms = _intents st.
Proof. apply route_picks_first_max. Qed.

(** *** The confidence fallback *)

Lemma find_first_chat (l : list Intent) chat :
  first_chat l chat ->
  find (fun i => String.eqb (name i) "chat") l = Some chat.
Proof.
  intros (l1 & l2 & -> & Hname & Hbefore).
  induction l1 as [|j l1 IH]; simpl.
  - by rewrite Hname.
  - destruct (String.eqb_spec (name j) "chat") as [E|_].
    + destruct (Hbefore j); [left | done].
    + apply IH. intros i Hi. apply Hbefore. by right.
Qed.

Lemma find_no_chat (l : list Intent) :
  (forall i, i ∈ l -> name i <> "chat") ->
  find (fun i => String.eqb (name i) "chat") l = None.
Proof.
  induction l as [|j l IH]; [done|]. intros H. simpl.
  destruct (String.eqb_spec (name j) "chat") as [E|_].
  - destruct (H j); [left | done].
  - apply IH. intros i Hi. apply H. by right.
Qed.

Lemma invoke_calls_handler st text (h : Handler) :
  calls_handler st text h (invoke h text st).
Proof.
  unfold calls_handler, invoke. by destruct (h text (session st)).
Qed.

Lemma handle_low st text best :
  route st text = Returned best ->
  best = None \/ (exists b, best = Some b /\ (score b < 4 # 10)%Q) ->
  handle st text = chat_fallback st text.
Proof.
  intros Hroute Hlow. unfold handle. rewrite Hroute.
  destruct Hlow as [-> | (b & -> & Hb)]; [done|].
  apply Qltb_lt in Hb. by rewrite Hb.
Qed.

Lemma handle_high st text b :
  route st text = Returned (Some b) -> ~ (score b < 4 # 10)%Q ->
  handle st text = invoke (handler (intent b)) text st.
Proof.
  intros Hroute Hb. unfold handle. rewrite Hroute.
  destruct (Qltb (score b) (4 # 10)) eqn:E; [|done]. by apply Qltb_lt in E.
Qed.

(** C1. Whenever [route] returns, [handle] follows the fallback
    policy. If there is no match, or the score of the best match is
    strictly below 0.4, it calls the handler of the first registered
    intent named "chat" with the input text and the core: what
    [handle] returns or raises is what that handler returns or
    raises, and the core afterwards has the session the handler left
    and is otherwise unchanged; with no such intent it returns the
    fixed message "I don't understand." and leaves the core as it
    is. Otherwise it calls, in the same sense, the handler of the
    matched intent. *)
Theorem handle_confidence_fallback st text best :
  route st text = Returned best ->
  ((best = None \/ exists b, best = Some b /\ (score b < 4 # 10)%Q) ->
   (forall chat, first_chat (_intents st) chat ->
      calls_handler st text (handler chat) (handle st text)) /\
   ((forall i, i ∈ _intents st -> name i <> "chat") ->
      handle st text = (Returned (PyStr "I don't understand."), st))) /\
  (forall b, best = Some b -> ~ (score b < 4 # 10)%Q ->
     calls_handler st text (handler (intent b)) (handle st text)).
Proof.
  intros Hroute. split.
  - intros Hlow. rewrite (handle_low st text best Hroute Hlow).
    unfold chat_fallback. split.
    + intros chat Hchat. rewrite (find_first_chat _ _ Hchat).
      apply invoke_calls_handler.
    + intros Hnone. by rewrite (find_no_chat _ Hnone).
  - intros b -> Hb. rewrite (handle_high st text b Hroute Hb).
    apply invoke_calls_handler.
Qed.

(** *** The score of one intent *)

Lemma usable_docs_cons st n exs ex pl de th h :
  usable_docs st {| name := n; examples := ex :: exs; handler := h;
                    plugin := pl; description := de; threshold := th |} =
  match _example_docs st !! (n, ex) with
  | Some d =>
      if (0 <? doc_len sp d)%nat then
        d :: usable_docs st {| name := n; examples := exs; handler := h;
                               plugin := pl; description := de; threshold := th |}
      else usable_docs st {| name := n; examples := exs; handler := h;
                             plugin := pl; description := de; threshold := th |}
  | None => usable_docs st {| name := n; examples := exs; handler := h;
                              plugin := pl; description := de; threshold := th |}
  end.
Proof.
  unfold usable_docs. simpl.
  destruct (_example_docs st !! (n, ex)) as [d|]; [|done]. simpl.
  rewrite filter_cons. destruct (Nat.ltb_spec 0 (doc_len sp d)).
  - by rewrite decide_True.
  - rewrite decide_False; [done | lia].
Qed.

Lemma similarities_usable st doc i sims :
  similarities st doc (name i) (examples i) = Returned sims ->
  Forall2 (fun d q => similarity sp doc d = Returned q) (usable_docs st i) sims.
Proof.
  destruct i as [n exs h pl de th]. simpl. revert sims.
  induction exs as [|ex exs IH]; intros sims; simpl.
  - intros [= <-]. constructor.
  - rewrite usable_docs_cons. unfold example_doc.
    destruct (_example_docs st !! (n, ex)) as [d|]; [|done]. simpl.
    destruct (0 <? doc_len sp d)%nat; [|apply IH].
    destruct (similarity sp doc d) as [q|e] eqn:Eq; [|done]. simpl.
    destruct (similarities st doc n exs) as [tl|e]; [|done]. simpl.
    intros [= <-]. constructor; [done | by apply IH].
Qed.

Lemma similarities_total st doc i :
  similarity_in_unit sp ->
  (forall ex, ex ∈ examples i -> is_Some (_example_docs st !! (name i, ex))) ->
  exists sims, similarities st doc (name i) (examples i) = Returned sims.
Proof.
  intros Hsim. generalize (name i) as n.
  induction (examples i) as [|ex exs IH]; intros n Hc; simpl; [by eexists|].
  destruct (IH n) as [tl Htl].
  { intros ex' Hex'. apply Hc. by right. }
  unfold example_doc. destruct (Hc ex) as [d ->]; [left|]. simpl.
  destruct (0 <? doc_len sp d)%nat; [|by eexists].
  destruct (Hsim doc d) as (q & -> & _). simpl. rewrite Htl. by eexists.
Qed.

Lemma max_or_zero_first_max (l : list Q) :
  l <> [] -> exists k, first_max id l k (max_or_zero l).
Proof.
  intros Hne. destruct (max_by_first_max id l Hne) as (k & r & Hr & Hk).
  exists k. destruct l; [done|]. simpl in *. by injection Hr as ->.
Qed.

Lemma max_or_zero_semantic st doc i sims :
  similarities st doc (name i) (examples i) = Returned sims ->
  semantic_score st doc i (max_or_zero sims).
Proof.
  intros H%similarities_usable. unfold semantic_score.
  destruct (usable_docs st i) as [|d0 ds] eqn:Eu.
  - by apply Forall2_nil_inv_l in H as ->.
  - destruct (max_or_zero_first_max sims) as (k & Hk & Hmax & _).
    { intros ->. by apply Forall2_nil_inv_r in H. }
    split.
    + destruct (Forall2_lookup_r _ _ _ _ _ H Hk) as (d & Hd & Hs).
      exists d. split; [by eapply list_elem_of_lookup_2 | done].
    + intros d (j & Hj)%list_elem_of_lookup.
      destruct (Forall2_lookup_l _ _ _ _ _ H Hj) as (q & Hq & Hs).
      exists q. split; [done|]. apply (Hmax q). by eapply list_elem_of_lookup_2.
Qed.

Lemma p_score_lexical st doc i :
  lexical_hit st doc i (p_score_of (phrase_hits st doc) i).
Proof.
  unfold lexical_hit, p_score_of. case_bool_decide; [by left | by right].
Qed.

Lemma semantic_score_bounds st doc i s :
  similarity_in_unit sp -> semantic_score st doc i s -> (0 <= s <= 1)%Q.
Proof.
  intros Hsim. unfold semantic_score. destruct (usable_docs st i) as [|d0 ds].
  - intros ->. split; [apply Qle_refl | done].
  - intros [(d & _ & Hd) _]. destruct (Hsim doc d) as (q & Hq & Hb). congruence.
Qed.

Lemma final_score_bounds (s p : Q) :
  (0 <= s <= 1)%Q -> p = 1%Q \/ p = 0%Q ->
  (0 <= final_score_of s p <= 1)%Q.
Proof. unfold final_score_of. intros Hs [-> | ->]; lra. Qed.

(** *** Failures while scoring *)

Lemma similarities_no_usable st doc i :
  usable_docs st i = [] ->
  (forall ex, ex ∈ examples i -> is_Some (_example_docs st !! (name i, ex))) ->
  similarities st doc (name i) (examples i) = Returned [].
Proof.
  destruct i as [n exs h pl de th]. simpl.
  induction exs as [|ex exs IH]; [done|]. rewrite usable_docs_cons. simpl.
  intros Hu Hc. unfold example_doc.
  destruct (Hc ex) as [d Hd]; [left|]. rewrite Hd in *. simpl.
  destruct (0 <? doc_len sp d)%nat; [done|].
  apply IH; [done|]. intros ex' Hex'. apply Hc. by right.
Qed.

(** C3, as the code has it. [route] does not catch what scoring
    raises: when scoring an intent raises and the intents registered
    before it were scored, [route] raises that exception, and so does
    [handle], with the core unchanged. What does degrade is an intent
    without usable example embeddings: scoring it does not raise, its
    semantic score is 0 and its final score 0.4 times its lexical hit. *)
Theorem route_propagates_scoring_failure st text l1 i l2 :
  _intents st = l1 ++ i :: l2 ->
  Forall (fun j => exists m,
    score_intent st (nlp sp text) (phrase_hits st (nlp sp text)) j = Returned m) l1 ->
  (forall e,
     score_intent st (nlp sp text) (phrase_hits st (nlp sp text)) i = Raised e ->
     route st text = Raised e /\ handle st text = (Raised e, st)) /\
  (usable_docs st i = [] ->
   (forall ex, ex ∈ examples i -> is_Some (_example_docs st !! (name i, ex))) ->
   exists m p,
     score_intent st (nlp sp text) (phrase_hits st (nlp sp text)) i = Returned m /\
     lexical_hit st (nlp sp text) i p /\
     score m = (0 * (6 # 10) + p * (4 # 10))%Q).
Proof.
  intros Hl Hbefore. split.
  - intros e He.
    assert (route st text = Raised e) as Hr.
    { apply route_Raised. unfold matches. rewrite Hl. by apply mapM_Raised. }
    split; [done|]. unfold handle. by rewrite Hr.
  - intros Hu Hc. unfold score_intent.
    rewrite (similarities_no_usable st _ i Hu Hc). simpl.
    eexists _, _. split; [done|]. split; [apply p_score_lexical | done].
Qed.

(** *** Thresholds *)

Lemma similarities_ext st1 st2 doc n exs :
  _example_docs st1 = _example_docs st2 ->
  similarities st1 doc n exs = similarities st2 doc n exs.
Proof.
  intros H. induction exs as [|ex exs IH]; [done|]. simpl.
  unfold example_doc. by rewrite H, IH.
Qed.

Lemma score_intent_same st1 st2 doc hits i1 i2 :
  _example_docs st1 = _example_docs st2 ->
  same_but_threshold i1 i2 ->
  same_scoring same_score (score_intent st1 doc hits i1) (score_intent st2 doc hits i2).
Proof.
  intros Hc (Hn & Hex & _). unfold score_intent, p_score_of.
  rewrite <- Hn, <- Hex, <- (similarities_ext st1 st2 doc _ _ Hc).
  by destruct (similarities st1 doc (name i1) (examples i1)).
Qed.

Lemma matches_same st1 st2 text :
  same_but_thresholds st1 st2 ->
  same_scoring (Forall2 same_score) (matches st1 text) (matches st2 text).
Proof.
  intros (_ & Hi & Hc & Hm & _). unfold matches, phrase_hits. rewrite <- Hm.
  set (doc := nlp sp text). generalize (match _phrase_matcher st1 with
    | Some m => matcher_hits m doc | None => [] end) as hits. intros hits.
  induction Hi as [|i1 i2 l1 l2 Hi _ IH]; [constructor|].
  pose proof (score_intent_same st1 st2 doc hits i1 i2 Hc Hi) as H1.
  simpl. destruct (score_intent st1 doc hits i1) as [m1|e1],
    (score_intent st2 doc hits i2) as [m2|e2]; try done. simpl.
  destruct (mapM _ l1) as [ms1|e1], (mapM _ l2) as [ms2|e2]; try done.
  simpl. by constructor.
Qed.

Lemma first_max_unique {A} (key : A -> Q) (l : list A) k1 k2 r1 r2 :
  first_max key l k1 r1 -> first_max key l k2 r2 -> k1 = k2.
Proof.
  intros (H1 & M1 & F1) (H2 & M2 & F2).
  destruct (Nat.lt_total k1 k2) as [Hlt | [-> | Hlt]]; [|done|].
  - exfalso. apply (Qlt_not_le _ _ (F2 k1 r1 Hlt H1)).
    apply M1. by eapply list_elem_of_lookup_2.
  - exfalso. apply (Qlt_not_le _ _ (F1 k2 r2 Hlt H2)).
    apply M2. by eapply list_elem_of_lookup_2.
Qed.

Lemma first_max_transfer (ms1 ms2 : list IntentMatch) k m1 :
  Forall2 same_score ms1 ms2 ->
  first_max score ms1 k m1 ->
  exists m2, same_score m1 m2 /\ first_max score ms2 k m2.
Proof.
  intros HF (Hk & Hmax & Hfirst).
  destruct (Forall2_lookup_l _ _ _ _ _ HF Hk) as (m2 & Hm2 & Hs).
  exists m2. split; [done|]. destruct Hs as [Hs _].
  unfold first_max. rewrite <- Hs. split; [done|]. split.
  - intros x (j & Hj)%list_elem_of_lookup.
    destruct (Forall2_lookup_r _ _ _ _ _ HF Hj) as (y & Hy & [<- _]).
    apply Hmax. by eapply list_elem_of_lookup_2.
  - intros j x Hlt Hj.
    destruct (Forall2_lookup_r _ _ _ _ _ HF Hj) as (y & Hy & [<- _]).
    by apply (Hfirst j).
Qed.

Lemma route_same st1 st2 text :
  same_but_thresholds st1 st2 ->
  same_choice st1 st2 (route st1 text) (route st2 text).
Proof.
  intros Hst. pose proof (matches_same st1 st2 text Hst) as Hms.
  destruct (matches st1 text) as [ms1|e1] eqn:E1,
    (matches st2 text) as [ms2|e2] eqn:E2; try done.
  - destruct (decide (_intents st1 = [])) as [Hnil|Hne].
    + pose proof (matches_intents _ _ _ E1) as H1. rewrite Hnil in H1.
      apply fmap_nil_inv in H1 as ->. apply Forall2_nil_inv_l in Hms as ->.
      unfold route. by rewrite E1, E2.
    + destruct (route_picks_first_max st1 text ms1 Hne E1)
        as (k & b1 & -> & Hk1 & Hf1 & _).
      assert (_intents st2 <> []) as Hne2.
      { destruct Hst as (_ & Hi & _). intros Hnil. rewrite Hnil in Hi.
        by apply Forall2_nil_inv_r in Hi. }
      destruct (route_picks_first_max st2 text ms2 Hne2 E2)
        as (k2 & b2 & -> & Hk2 & Hf2 & _).
      destruct (first_max_transfer ms1 ms2 k b1 Hms Hf1) as (m2 & Hs & Hf).
      pose proof (first_max_unique _ _ _ _ _ _ Hf Hf2) as <-.
      destruct Hf as [Hm2 _], Hf2 as [Hb2 _]. rewrite Hm2 in Hb2.
      injection Hb2 as <-. destruct Hs as [Hs Hr]. simpl. eauto.
  - unfold route. rewrite E1, E2. simpl. done.
Qed.

Lemma find_chat_same (l1 l2 : list Intent) :
  Forall2 same_but_threshold l1 l2 ->
  match find (fun i => String.eqb (name i) "chat") l1,
        find (fun i => String.eqb (name i) "chat") l2 with
  | Some a, Some b => same_but_threshold a b
  | None, None => True
  | _, _ => False
  end.
Proof.
  induction 1 as [|i1 i2 l1 l2 Hi _ IH]; [done|]. simpl.
  destruct Hi as (Hn & Hrest). rewrite <- Hn.
  by destruct (String.eqb (name i1) "chat").
Qed.

Lemma invoke_same st1 st2 h text :
  same_but_thresholds st1 st2 ->
  fst (invoke h text st1) = fst (invoke h text st2) /\
  same_but_thresholds (snd (invoke h text st1)) (snd (invoke h text st2)).
Proof.
  intros (Hs & Hi & Hc & Hm & He). unfold invoke. rewrite Hs.
  by destruct (h text (session st2)).
Qed.

Lemma chat_fallback_same st1 st2 text :
  same_but_thresholds st1 st2 ->
  fst (chat_fallback st1 text) = fst (chat_fallback st2 text) /\
  same_but_thresholds (snd (chat_fallback st1 text)) (snd (chat_fallback st2 text)).
Proof.
  intros Hst. unfold chat_fallback.
  pose proof (find_chat_same (_intents st1) (_intents st2)) as Hf.
  destruct Hst as (Hs & Hi & Hrest). specialize (Hf Hi).
  destruct (find _ (_intents st1)) as [c1|], (find _ (_intents st2)) as [c2|];
    try done.
  destruct Hf as (_ & _ & <- & _). by apply invoke_same.
Qed.

(** C6. The thresholds stored in the intents are never consulted.
    For two cores that differ at most in those thresholds and any
    input, [route] raises the same exception, or returns no match in
    both, or returns the intents at one and the same registry
    position with the same score; and [handle] returns the same
    result and leaves cores that again differ at most in the
    thresholds, the fallback being decided by the score and the
    fixed floor 0.4 alone. *)
Theorem threshold_never_consulted st1 st2 text :
  same_but_thresholds st1 st2 ->
  same_choice st1 st2 (route st1 text) (route st2 text) /\
  fst (handle st1 text) = fst (handle st2 text) /\
  same_but_thresholds (snd (handle st1 text)) (snd (handle st2 text)).
Proof.
  intros Hst. pose proof (route_same st1 st2 text Hst) as Hr.
  split; [done|]. unfold handle.
  destruct (route st1 text) as [[m1|]|e1], (route st2 text) as [[m2|]|e2];
    try done; simpl in Hr.
  - destruct Hr as (Hs & _ & k & Hk1 & Hk2). rewrite <- Hs.
    destruct (Qltb (score m1) (4 # 10)); [by apply chat_fallback_same|].
    destruct Hst as (Hse & Hi & Hrest).
    destruct (Forall2_lookup_l _ _ _ _ _ Hi Hk1) as (i2 & Hi2 & Hsame).
    rewrite Hk2 in Hi2. injection Hi2 as <-.
    destruct Hsame as (_ & _ & <- & _). by apply invoke_same.
  - by apply chat_fallback_same.
  - by subst e2.
Qed.

End Routing.

(** ** Discovery *)

Section Discovery.

Context {sp : Spacy}.
Implicit Types (st : JarCore sp) (f : PluginFile) (i : Intent).

Lemma cache_examples_lookup (n : string) (exs : list string)
    (m : gmap (string * string) (Doc sp)) (k : string * string) :
  cache_examples sp n exs m !! k =
    if decide (k ∈ map (fun ex => (n, ex)) exs) then Some (nlp sp k.2) else m !! k.
Proof.
  unfold cache_examples. revert m.
  induction exs as [|ex exs IH]; intros m; cbn [foldl map].
  - by rewrite decide_False by apply not_elem_of_nil.
  - rewrite IH. destruct (decide (k ∈ map (fun ex => (n, ex)) exs)) as [Hin|Hnin].
    + rewrite decide_True; [done | by right].
    + destruct (decide (k = (n, ex))) as [->|Hne].
      * rewrite lookup_insert_eq. rewrite decide_True; [done | left].
      * rewrite lookup_insert_ne by done. rewrite decide_False; [done|].
        by intros [?|?]%elem_of_cons.
Qed.

Lemma register_all_intents st (l : list Intent) :
  _intents (foldl register_intent st l) = _intents st ++ l.
Proof.
  revert st. induction l as [|i l IH]; intros st; simpl.
  - by rewrite app_nil_r.
  - rewrite IH. simpl. by rewrite <- app_assoc.
Qed.

Lemma register_all_docs st (l : list Intent) (k : string * string) :
  _example_docs (foldl register_intent st l) !! k =
    if decide (k ∈ example_keys l) then Some (nlp sp k.2)
    else _example_docs st !! k.
Proof.
  revert st. induction l as [|i l IH]; intros st;
    cbn [foldl example_keys flat_map].
  - by rewrite decide_False by apply not_elem_of_nil.
  - rewrite IH. cbn [register_intent set_example_docs _example_docs].
    rewrite cache_examples_lookup.
    destruct (decide (k ∈ example_keys l)) as [Hin|Hnin].
    + rewrite decide_True; [done|]. apply elem_of_app. by right.
    + destruct (decide (k ∈ map (fun ex => (name i, ex)) (examples i))) as [Hi|Hni].
      * rewrite decide_True; [done|]. apply elem_of_app. by left.
      * rewrite decide_False; [done|]. by intros [?|?]%elem_of_app.
Qed.

Lemma register_all_rest st (l : list Intent) :
  session (foldl register_intent st l) = session st /\
  _phrase_matcher (foldl register_intent st l) = _phrase_matcher st /\
  _plugin_errors (foldl register_intent st l) = _plugin_errors st.
Proof.
  revert st. induction l as [|i l IH]; intros st; simpl; [done|].
  by destruct (IH (register_intent st i)) as (-> & -> & ->).
Qed.

(** The loop over the descriptors registers the intents built up to
    the first failure, whatever the core it starts from. *)
Lemma register_dicts_build st module plugin_name ds :
  register_dicts st module plugin_name ds =
    (snd (build_intents module plugin_name ds),
     foldl register_intent st (fst (build_intents module plugin_name ds))).
Proof.
  revert st. induction ds as [|d ds IH]; intros st; simpl; [done|].
  destruct (_intent_from_dict d module plugin_name) as [i|e]; [|done].
  rewrite IH. by destruct (build_intents module plugin_name ds).
Qed.

Lemma load_and_register_build st f :
  load_and_register st f =
    (snd (file_build f), foldl register_intent st (fst (file_build f))).
Proof.
  unfold load_and_register, file_build.
  destruct (load_module f); [apply register_dicts_build | done].
Qed.

Lemma file_intents_build f : file_intents sp f = fst (file_build f).
Proof.
  unfold file_intents, _load_plugin_file. rewrite load_and_register_build.
  destruct (snd (file_build f)); simpl; by rewrite register_all_intents.
Qed.

Lemma file_error_build f :
  file_error sp f =
    match snd (file_build f) with Raised e => Some e | Returned _ => None end.
Proof. unfold file_error. by rewrite load_and_register_build. Qed.

(** The outcome of loading a file does not depend on the core. *)
Lemma load_and_register_outcome st f :
  fst (load_and_register st f) = fst (load_and_register (blank sp) f).
Proof. by rewrite !load_and_register_build. Qed.

Lemma set_plugin_errors_id st : set_plugin_errors st (_plugin_errors st) = st.
Proof. by destruct st. Qed.

Lemma register_all_set_errors st errs (l : list Intent) :
  foldl register_intent (set_plugin_errors st errs) l =
    set_plugin_errors (foldl register_intent st l) errs.
Proof.
  revert st. induction l as [|i l IH]; intros st; [done|].
  cbn [foldl]. by rewrite <- IH.
Qed.

Lemma load_plugin_file_unfold st f :
  visible f ->
  _load_plugin_file st f =
    set_plugin_errors (foldl register_intent st (file_intents sp f))
      (record_error sp (_plugin_errors st) f).
Proof.
  intros Hv. unfold _load_plugin_file, record_error.
  rewrite decide_True by done.
  rewrite load_and_register_build, file_error_build, file_intents_build.
  destruct (register_all_rest st (fst (file_build f))) as (_ & _ & He).
  destruct (snd (file_build f)) as [[]|e]; rewrite <- He.
  - by rewrite set_plugin_errors_id.
  - done.
Qed.

Lemma record_error_hidden (errs : gmap string string) f :
  ~ visible f -> record_error sp errs f = errs.
Proof. intros Hv. unfold record_error. by destruct (decide (visible f)). Qed.

Lemma discover_steps_unfold st (fs : list PluginFile) :
  foldl discover_step st fs =
    set_plugin_errors
      (foldl register_intent st (flat_map (file_intents sp) (filter visible fs)))
      (foldl (record_error sp) (_plugin_errors st) fs).
Proof.
  revert st. induction fs as [|f fs IH]; intros st; cbn [foldl].
  - by rewrite set_plugin_errors_id.
  - rewrite IH, filter_cons. unfold discover_step.
    destruct (String.prefix "_" (path_name f)) eqn:E.
    + assert (~ visible f) as Hv by (unfold visible; congruence).
      rewrite (record_error_hidden _ f Hv).
      by destruct (decide (visible f)).
    + rewrite (load_plugin_file_unfold st f E).
      destruct (decide (visible f)) as [_|Hv]; [|done].
      cbn [flat_map _plugin_errors set_plugin_errors].
      by rewrite foldl_app, register_all_set_errors.
Qed.

Lemma discover_plugins_unfold st files :
  discover_plugins st files =
    _build_matchers
      (set_plugin_errors
         (foldl register_intent (set_intents st [])
            (flat_map (file_intents sp) (filter visible (merge_sort path_le files))))
         (foldl (record_error sp) (_plugin_errors st) (merge_sort path_le files))).
Proof. unfold discover_plugins. by rewrite discover_steps_unfold. Qed.

Lemma discover_plugins_intents st files :
  _intents (discover_plugins st files) =
    flat_map (file_intents sp) (filter visible (merge_sort path_le files)).
Proof.
  rewrite discover_plugins_unfold. cbn [_build_matchers set_phrase_matcher
    set_plugin_errors _intents]. by rewrite register_all_intents.
Qed.

Lemma discover_plugins_docs st files (k : string * string) :
  _example_docs (discover_plugins st files) !! k =
    if decide (k ∈ example_keys (_intents (discover_plugins st files)))
    then Some (nlp sp k.2) else _example_docs st !! k.
Proof.
  rewrite discover_plugins_intents, discover_plugins_unfold.
  cbn [_build_matchers set_phrase_matcher set_plugin_errors _example_docs].
  by rewrite register_all_docs.
Qed.

Lemma discover_cache_complete st files :
  cache_complete (discover_plugins st files).
Proof.
  intros i ex Hin Hex. rewrite discover_plugins_docs, decide_True; [done|].
  unfold example_keys. apply list_elem_of_In, in_flat_map.
  exists i. split; [by apply list_elem_of_In|].
  apply in_map. by apply list_elem_of_In.
Qed.

(** C2, as the code has it. Discovery empties the intent list and
    rebuilds the phrase matcher, but it does not empty the embedding
    cache. After [discover_plugins] the intent list is exactly what
    the visible files contribute, in sorted order, whatever was
    registered before; the phrase matcher is the index over exactly
    these intents; every example of these intents has its embedding
    in the cache, so matcher and cache agree with the intent list;
    and at every other key the cache is what it was before the pass,
    so entries of earlier passes stay. *)
Theorem discover_rebuilds_registry st files :
  _intents (discover_plugins st files) =
    flat_map (file_intents sp) (filter visible (merge_sort path_le files)) /\
  _phrase_matcher (discover_plugins st files) =
    Some (phrase_index sp (_intents (discover_plugins st files))) /\
  (forall k : string * string,
     k ∈ example_keys (_intents (discover_plugins st files)) ->
     _example_docs (discover_plugins st files) !! k = Some (nlp sp k.2)) /\
  (forall k : string * string,
     k ∉ example_keys (_intents (discover_plugins st files)) ->
     _example_docs (discover_plugins st files) !! k = _example_docs st !! k) /\
  cache_complete (discover_plugins st files).
Proof.
  split; [apply discover_plugins_intents|]. split; [done|]. split; [|split].
  - intros k Hk. by rewrite discover_plugins_docs, decide_True.
  - intros k Hk. by rewrite discover_plugins_docs, decide_False.
  - apply discover_cache_complete.
Qed.

(** *** Failing files *)

Lemma record_errors_other (errs : gmap string string) (fs : list PluginFile)
    (s : string) :
  s ∉ map path_stem fs ->
  foldl (record_error sp) errs fs !! s = errs !! s.
Proof.
  revert errs. induction fs as [|f fs IH]; intros errs Hs; [done|].
  cbn [foldl]. rewrite IH by (intros ?; apply Hs; by right).
  assert (path_stem f <> s) by (intros <-; apply Hs; left).
  unfold record_error. destruct (decide (visible f)); [|done].
  destruct (file_error sp f); [|done]. by rewrite lookup_insert_ne.
Qed.

Lemma record_errors_failed (errs : gmap string string) (fs : list PluginFile)
    bad e :
  NoDup (map path_stem fs) -> bad ∈ fs -> visible bad ->
  file_error sp bad = Some e ->
  foldl (record_error sp) errs fs !! path_stem bad = Some (str e).
Proof.
  intros Hnd Hin Hv He. revert errs.
  induction fs as [|f fs IH]; intros errs; [by apply elem_of_nil in Hin|].
  cbn [map] in Hnd. apply NoDup_cons in Hnd as [Hf Hnd]. cbn [foldl].
  apply elem_of_cons in Hin as [<- | Hin].
  - rewrite record_errors_other by done. unfold record_error.
    rewrite decide_True by done. rewrite He. apply lookup_insert_eq.
  - by apply IH.
Qed.

Lemma build_intents_all module plugin_name (ds : list Descriptor) d :
  snd (build_intents module plugin_name ds) = Returned tt ->
  d ∈ ds ->
  exists i, _intent_from_dict d module plugin_name = Returned i /\
            i ∈ fst (build_intents module plugin_name ds).
Proof.
  induction ds as [|d' ds IH]; [by intros _ ?%elem_of_nil|]. simpl.
  destruct (_intent_from_dict d' module plugin_name) as [i'|e] eqn:E; [|done].
  destruct (build_intents module plugin_name ds) as [l r] eqn:Eb. simpl in *.
  intros Hr [-> | Hd]%elem_of_cons.
  - exists i'. split; [done | left].
  - destruct (IH Hr Hd) as (i & Hi & Hin). exists i. split; [done | by right].
Qed.

Lemma discovered_intent st files f i :
  f ∈ files -> visible f -> i ∈ file_intents sp f ->
  i ∈ _intents (discover_plugins st files).
Proof.
  intros Hf Hv Hi. rewrite discover_plugins_intents.
  apply list_elem_of_In, in_flat_map. exists f.
  split; [|by apply list_elem_of_In].
  apply list_elem_of_In, list_elem_of_filter. split; [done|].
  by rewrite merge_sort_Permutation.
Qed.

Lemma build_intents_from module plugin_name (ds : list Descriptor) i :
  i ∈ fst (build_intents module plugin_name ds) ->
  exists d, d ∈ ds /\ _intent_from_dict d module plugin_name = Returned i.
Proof.
  induction ds as [|d ds IH]; simpl; [by intros ?%elem_of_nil|].
  destruct (_intent_from_dict d module plugin_name) as [i'|e] eqn:E;
    [|by intros ?%elem_of_nil].
  destruct (build_intents module plugin_name ds) as [l r]. simpl in *.
  intros [-> | Hi]%elem_of_cons.
  - exists d. split; [left | done].
  - destruct (IH Hi) as (d' & Hd' & Hi'). exists d'. split; [by right | done].
Qed.

Lemma discovered_handlers_wrapped st files i :
  i ∈ _intents (discover_plugins st files) ->
  exists raw, handler i = _wrapped raw.
Proof.
  rewrite discover_plugins_intents.
  intros (f & _ & Hi%list_elem_of_In)%list_elem_of_In%in_flat_map.
  rewrite file_intents_build in Hi. unfold file_build in Hi.
  destruct (load_module f) as [module|e]; [|by apply elem_of_nil in Hi].
  apply build_intents_from in Hi as (d & _ & Hd).
  by eapply intent_from_dict_wrapped.
Qed.

End Discovery.

(** * Concrete runs *)

Lemma core3_intents :
  _intents Fixture.core3 = [Fixture.chat_intent; Fixture.weather_intent].
Proof. reflexivity. Qed.

Lemma core_raising_intents :
  _intents Fixture.core_raising = [Fixture.boom_intent; Fixture.chat_intent].
Proof. reflexivity. Qed.

Lemma fixture_similarity_in_unit : similarity_in_unit Fixture.spacy.
Proof.
  intros d d'. eexists. split; [reflexivity|]. simpl.
  destruct (String.eqb d d'); split; discriminate.
Qed.

Lemma rethreshold_same {sp} (st : JarCore sp) (t : Q) :
  same_but_thresholds st (Fixture.rethreshold st t).
Proof.
  unfold same_but_thresholds, Fixture.rethreshold. simpl.
  repeat split; try done.
  induction (_intents st) as [|i l IH]; constructor; done.
Qed.

Lemma route_None_iff_no_intents_witness :
  route (init Fixture.spacy []) "hello" = Returned None /\
  handle (init Fixture.spacy []) "hello" =
    (Returned (PyStr "I don't understand."), init Fixture.spacy []).
Proof.
  split.
  - by apply (route_None_iff_no_intents (init Fixture.spacy []) "hello").
  - by apply (route_None_iff_no_intents (init Fixture.spacy []) "hello").
Defined.

Lemma route_first_highest_witness :
  exists k best,
    route Fixture.core3 "hello" = Returned (Some best) /\
    _intents Fixture.core3 !! k = Some (intent best) /\
    first_max score
      [ {| intent := Fixture.chat_intent; score := 1 * (6 # 10) + 1 * (4 # 10);
           reason := "" |};
        {| intent := Fixture.weather_intent;
           score := (1 # 4) * (6 # 10) + 0 * (4 # 10); reason := "" |} ]
      k best /\
    [Fixture.chat_intent; Fixture.weather_intent] = _intents Fixture.core3.
Proof.
  apply (route_first_highest Fixture.core3 "hello"); [discriminate | reflexivity].
Defined.

Lemma handle_confidence_fallback_witness :
  route Sample.house "zzz" =
    Returned (Some {| intent := Sample.alarm_intent;
                      score := (1 # 4) * (6 # 10) + 0 * (4 # 10);
                      reason := "" |}) /\
  _intents Sample.house =
    [Sample.alarm_intent; Sample.talk_intent; Sample.greet_intent] /\
  fst (handle Sample.house "zzz") = Returned (PyStr "You said zzz") /\
  session (snd (handle Sample.house "zzz")) =
    <["turns" := PyInt 1]> (session Sample.house).
Proof.
  assert (route Sample.house "zzz" =
    Returned (Some {| intent := Sample.alarm_intent;
                      score := (1 # 4) * (6 # 10) + 0 * (4 # 10);
                      reason := "" |})) as Hroute by reflexivity.
  split; [exact Hroute|]. split; [reflexivity|].
  destruct (handle_confidence_fallback Sample.house "zzz" _ Hroute)
    as [Hlow _].
  destruct Hlow as [Hchat _].
  { right. eexists. split; reflexivity. }
  destruct (Hchat Sample.talk_intent) as (Hr & Hs & _).
  { exists [Sample.alarm_intent], [Sample.greet_intent].
    split; [reflexivity|]. split; [reflexivity|].
    intros i Hi. apply list_elem_of_singleton in Hi. by subst i. }
  rewrite Hr, Hs. split; reflexivity.
Defined.

(** C3, counterexample. The similarity with the one example of the
    first intent raises, scoring that intent raises, and [route]
    raises instead of returning. *)
Lemma route_raises_on_scoring_failure :
  score_intent Fixture.core_raising "hello"
    (phrase_hits Fixture.core_raising "hello") Fixture.boom_intent =
    Raised (OtherException "no vectors") /\
  ~ (exists r, route Fixture.core_raising "hello" = Returned r).
Proof.
  split; [reflexivity|]. intros [r Hr].
  assert (route Fixture.core_raising "hello" =
          Raised (OtherException "no vectors")) as E by reflexivity.
  congruence.
Qed.

Lemma route_propagates_scoring_failure_witness :
  route Fixture.core_raising "hello" = Raised (OtherException "no vectors") /\
  handle Fixture.core_raising "hello" =
    (Raised (OtherException "no vectors"), Fixture.core_raising).
Proof.
  apply (route_propagates_scoring_failure Fixture.core_raising "hello"
           [] Fixture.boom_intent [Fixture.chat_intent]);
    [reflexivity | constructor | reflexivity].
Defined.

Lemma threshold_never_consulted_witness :
  same_choice Fixture.core3 (Fixture.rethreshold Fixture.core3 (9 # 10))
    (route Fixture.core3 "hello")
    (route (Fixture.rethreshold Fixture.core3 (9 # 10)) "hello") /\
  fst (handle Fixture.core3 "hello") =
    fst (handle (Fixture.rethreshold Fixture.core3 (9 # 10)) "hello").
Proof.
  destruct (threshold_never_consulted Fixture.core3
              (Fixture.rethreshold Fixture.core3 (9 # 10)) "hello"
              (rethreshold_same Fixture.core3 (9 # 10))) as (H1 & H2 & _).
  by split.
Defined.

(** C2, counterexample. A second discovery pass over an empty
    directory leaves no intent, but the embedding the first pass
    cached for the weather example is still in the cache. *)
Lemma discover_keeps_stale_embeddings :
  _intents (discover_plugins Fixture.core_weather []) = [] /\
  _phrase_matcher (discover_plugins Fixture.core_weather []) = Some [] /\
  _example_docs (discover_plugins Fixture.core_weather [])
    !! ("weather", "weather today") = Some "weather today".
Proof. repeat split. Qed.

Lemma wrapped_reruns_on_body_TypeError_witness :
  _wrapped Fixture.flaky "hi" ∅ =
    body Fixture.flaky [] (<["n" := PyInt 2]> (<["n" := PyInt 1]> ∅)) /\
  Fixture.counter (snd (_wrapped Fixture.flaky "hi" ∅)) = 3%Z.
Proof.
  destruct (wrapped_reruns_on_body_TypeError Fixture.flaky "hi" ∅
              (<["n" := PyInt 1]> ∅) "unsupported operand type(s) for +")
    as [_ H3]; [reflexivity | reflexivity |].
  rewrite (H3 "unsupported operand type(s) for +"
              (<["n" := PyInt 2]> (<["n" := PyInt 1]> ∅)));
    split; reflexivity.
Defined.

(** * Further properties of the runtime *)

(** ** Wrapped handlers and descriptors *)

(** X1. A handler that takes exactly two arguments and whose body raises
    a TypeError runs once; the two retries are rejected by its
    signature, and what the wrapper raises is the TypeError of the
    call without arguments, not the one of the body. The session is
    the one the body left. *)
Theorem wrapped_masks_body_TypeError (f : pyfunc) (text : string)
    (s0 s1 : Session) (msg : string) :
  accepts f 2 = true -> accepts f 1 = false -> accepts f 0 = false ->
  body f [ArgText text; ArgCore] s0 = (Raised (TypeError msg), s1) ->
  _wrapped f text s0 = (Raised (TypeError (sig_error f 0)), s1).
Proof.
  intros A2 A1 A0 Hb.
  rewrite (wrapped_after_TypeError f text s0 s1 msg)
    by (by rewrite call_accepted).
  rewrite (call_rejected f [ArgText text] s1 A1).
  by rewrite (call_rejected f [] s1 A0).
Qed.

(** The raw handler a descriptor resolves to. *)
Lemma intent_from_dict_Returned d module plugin_name i :
  _intent_from_dict d module plugin_name = Returned i <->
  exists f n exs,
    (d_handler d = Some (Direct (Func f)) \/
     exists attr, d_handler d = Some (ByName attr) /\
                  attrs module !! attr = Some (Func f)) /\
    d_name d = Some n /\ d_examples d = Some exs /\
    i = {| name := n; examples := exs; handler := _wrapped f;
           plugin := plugin_name; description := "";
           threshold := default (55 # 100) (d_threshold d) |}.
Proof.
  unfold _intent_from_dict, getitem, getattr. split.
  - destruct (d_handler d) as [[attr|[f|r]]|]; simpl; try done.
    + destruct (attrs module !! attr) as [[f|r]|] eqn:Ea; simpl; try done.
      destruct (d_name d) as [n|]; [|done].
      destruct (d_examples d) as [exs|]; [|done]. simpl.
      intros [= <-]. exists f, n, exs. eauto 10.
    + destruct (d_name d) as [n|]; [|done].
      destruct (d_examples d) as [exs|]; [|done]. simpl.
      intros [= <-]. exists f, n, exs. eauto 10.
  - intros (f & n & exs & Hh & -> & -> & ->).
    destruct Hh as [-> | (attr & -> & Ha)]; simpl; [done|]. by rewrite Ha.
Qed.

(** An intent built from a descriptor takes its name and examples
    from it, its plugin from the file, its threshold from the
    descriptor or else 0.55, and never its description: that of the
    intent is empty whatever the descriptor says. *)
Theorem intent_from_dict_fields d module plugin_name i :
  _intent_from_dict d module plugin_name = Returned i ->
  d_name d = Some (name i) /\ d_examples d = Some (examples i) /\
  plugin i = plugin_name /\ description i = "" /\
  threshold i = default (55 # 100) (d_threshold d).
Proof.
  intros (f & n & exs & _ & Hn & Hex & ->)%intent_from_dict_Returned.
  by repeat split.
Qed.

(** ** Loading plugin files *)

Section Loading.

Context {sp : Spacy}.
Implicit Types (st : JarCore sp) (f : PluginFile) (i : Intent).

Lemma build_intents_prefix module plugin_name (ds1 ds2 : list Descriptor) d
    (is1 : list Intent) e :
  Forall2 (fun d i => _intent_from_dict d module plugin_name = Returned i) ds1 is1 ->
  _intent_from_dict d module plugin_name = Raised e ->
  build_intents module plugin_name (ds1 ++ d :: ds2) = (is1, Raised e).
Proof.
  intros HF Hd. induction HF as [|d1 i1 ds1 is1 H1 _ IH]; simpl.
  - by rewrite Hd.
  - by rewrite H1, IH.
Qed.

Lemma load_plugin_file_build st f :
  _load_plugin_file st f =
    match snd (file_build f) with
    | Returned _ => foldl register_intent st (fst (file_build f))
    | Raised e =>
        set_plugin_errors (foldl register_intent st (fst (file_build f)))
          (<[path_stem f := str e]> (_plugin_errors st))
    end.
Proof.
  unfold _load_plugin_file. rewrite load_and_register_build.
  destruct (snd (file_build f)) as [[]|e]; [done|].
  by destruct (register_all_rest st (fst (file_build f))) as (_ & _ & ->).
Qed.

(** X2. A descriptor that fails ends the loading of its file: the
    intents of the descriptors before it stay registered, those of
    the descriptors after it are not registered, valid or not, and
    the message of the failure is recorded under the stem. *)
Theorem load_stops_at_first_bad_descriptor st f module
    (ds1 ds2 : list Descriptor) d (is1 : list Intent) e :
  load_module f = Returned module ->
  _extract_intents module = ds1 ++ d :: ds2 ->
  Forall2 (fun d i => _intent_from_dict d module (path_stem f) = Returned i)
    ds1 is1 ->
  _intent_from_dict d module (path_stem f) = Raised e ->
  _intents (_load_plugin_file st f) = _intents st ++ is1 /\
  _plugin_errors (_load_plugin_file st f) =
    <[path_stem f := str e]> (_plugin_errors st).
Proof.
  intros Hm Hds HF Hd. rewrite load_plugin_file_build. unfold file_build.
  rewrite Hm, Hds, (build_intents_prefix _ _ _ _ _ _ _ HF Hd). simpl.
  by rewrite register_all_intents.
Qed.

(** X3. A plugin that lists no intents but defines a callable
    [chat_with_jarvis] contributes one intent: it is named "chat",
    has the three generic examples and the default threshold, and
    wraps that function; no error is recorded. *)
Theorem convention_handler_registered st f module raw :
  load_module f = Returned module ->
  lists_no_intents module ->
  attrs module !! "chat_with_jarvis" = Some (Func raw) ->
  _intents (_load_plugin_file st f) =
    _intents st ++ [convention_intent raw (path_stem f)] /\
  _plugin_errors (_load_plugin_file st f) = _plugin_errors st.
Proof.
  intros Hm Hno Hc. rewrite load_plugin_file_build. unfold file_build.
  rewrite Hm.
  assert (_extract_intents module =
    [ {| d_name := Some "chat"; d_examples := Some ["talk"; "chat"; "hey"];
         d_handler := Some (ByName "chat_with_jarvis");
         d_threshold := None; d_description := None |} ]) as ->.
  { unfold _extract_intents. rewrite Hc. by destruct Hno as [-> | ->]. }
  simpl. unfold _intent_from_dict, getattr. simpl. rewrite Hc. simpl.
  split; [done|]. by destruct st.
Qed.

(** X4. A plugin that lists no intents and has no [chat_with_jarvis]
    loads without any trace: nothing is registered and no error is
    recorded. *)
Theorem empty_plugin_leaves_no_trace st f module :
  load_module f = Returned module ->
  lists_no_intents module ->
  attrs module !! "chat_with_jarvis" = None ->
  _load_plugin_file st f = st.
Proof.
  intros Hm Hno Hc. rewrite load_plugin_file_build. unfold file_build.
  rewrite Hm.
  assert (_extract_intents module = []) as ->; [|done].
  unfold _extract_intents. rewrite Hc. by destruct Hno as [-> | ->].
Qed.

(** X5. Loading gives a module in two cases only: the first execution
    returned it, or the first execution raised a ModuleNotFoundError
    that names the missing module, installing that module succeeded
    and the second execution returned it. *)
Theorem load_module_Returned f module :
  load_module f = Returned module <->
  exec_module f = Returned module \/
  exists missing msg pkg,
    exec_module f = Raised (ModuleNotFoundError missing msg) /\
    truthy_name missing = Some pkg /\
    pip_install f pkg = Returned tt /\
    exec_module_again f = Returned module.
Proof.
  unfold load_module. split.
  - destruct (exec_module f) as [m|e] eqn:E; [intros [= ->]; by left|].
    destruct e as [| | |missing msg| |]; try done.
    destruct (truthy_name missing) as [pkg|] eqn:Et; [|done].
    destruct (pip_install f pkg) as [[]|e] eqn:Ep; [|done]. simpl.
    intros Ha. right. by exists missing, msg, pkg.
  - intros [-> | (missing & msg & pkg & -> & -> & -> & Ha)]; done.
Qed.

(** X6. When the installation of the missing module fails, the file is
    not executed again: nothing is registered and the error recorded
    is that of the installation, not the ModuleNotFoundError. *)
Theorem failed_install_recorded st f missing msg pkg e :
  exec_module f = Raised (ModuleNotFoundError missing msg) ->
  truthy_name missing = Some pkg ->
  pip_install f pkg = Raised e ->
  _load_plugin_file st f =
    set_plugin_errors st (<[path_stem f := str e]> (_plugin_errors st)).
Proof.
  intros He Ht Hp. rewrite load_plugin_file_build. unfold file_build, load_module.
  by rewrite He, Ht, Hp.
Qed.

End Loading.

(** ** The registry *)

Section Registry.

Context {sp : Spacy}.
Implicit Types (st : JarCore sp) (f : PluginFile) (i : Intent).

(** X7. Registering an intent appends it, caches the embedding of each
    of its examples under the name of the intent, leaves every other
    cache entry as it is, and keeps the cache complete. *)
Theorem register_intent_caches_examples st i :
  _intents (register_intent st i) = _intents st ++ [i] /\
  (forall ex, ex ∈ examples i ->
     _example_docs (register_intent st i) !! (name i, ex) = Some (nlp sp ex)) /\
  (forall k : string * string,
     k ∉ map (fun ex => (name i, ex)) (examples i) ->
     _example_docs (register_intent st i) !! k = _example_docs st !! k) /\
  (cache_complete st -> cache_complete (register_intent st i)).
Proof.
  assert (Hl : forall k : string * string,
    _example_docs (register_intent st i) !! k =
      if decide (k ∈ map (fun ex => (name i, ex)) (examples i))
      then Some (nlp sp k.2) else _example_docs st !! k).
  { intros k. apply cache_examples_lookup. }
  split; [done|]. split; [|split].
  - intros ex Hex. rewrite Hl, decide_True; [done|].
    apply list_elem_of_In, in_map. by apply list_elem_of_In.
  - intros k Hk. by rewrite Hl, decide_False.
  - intros Hc j ex Hj Hex. rewrite Hl. case_decide; [done|].
    simpl in Hj. apply elem_of_app in Hj as [Hj | ->%list_elem_of_singleton].
    + by apply Hc.
    + exfalso. apply H. apply list_elem_of_In, in_map. by apply list_elem_of_In.
Qed.

(** X8. The phrase index is keyed by intent name: after the matchers are
    built, a name is among the phrase hits of a document exactly when
    some registered intent of that name has an example whose pattern
    occurs in the document. Intents that share a name share their
    hits. *)
Theorem phrase_hits_by_name st (doc : Doc sp) (n : string) :
  n ∈ phrase_hits (_build_matchers st) doc <->
  exists i ex, i ∈ _intents st /\ name i = n /\ ex ∈ examples i /\
               pattern_in sp (make_doc sp ex) doc = true.
Proof.
  unfold phrase_hits, _build_matchers, matcher_hits. simpl.
  rewrite list_elem_of_In, in_map_iff. split.
  - intros ([k pats] & <- & Hin). simpl.
    apply list_elem_of_In, list_elem_of_filter in Hin as [Hex Hin]. simpl in Hex.
    apply list_elem_of_In, in_map_iff in Hin as (i & [= <- <-] & Hi).
    apply existsb_exists in Hex as (pat & Hpat & Hm).
    apply in_map_iff in Hpat as (ex & <- & Hex).
    exists i, ex. by rewrite !list_elem_of_In.
  - intros (i & ex & Hi & <- & Hex & Hm).
    exists (name i, map (make_doc sp) (examples i)). split; [done|].
    apply list_elem_of_In, list_elem_of_filter. split.
    + simpl. apply existsb_exists. exists (make_doc sp ex). split; [|done].
      apply in_map. by apply list_elem_of_In.
    + apply list_elem_of_In, in_map_iff. exists i.
      split; [done | by apply list_elem_of_In].
Qed.

(** X9. Every intent discovery registers has an empty description and
    belongs to a visible file of the directory, whose stem is its
    plugin name. *)
Theorem discovered_intents_origin st files i :
  i ∈ _intents (discover_plugins st files) ->
  description i = "" /\
  exists f, f ∈ files /\ visible f /\ plugin i = path_stem f.
Proof.
  rewrite discover_plugins_intents.
  intros (f & Hf & Hi%list_elem_of_In)%list_elem_of_In%in_flat_map.
  apply list_elem_of_In, list_elem_of_filter in Hf as [Hv Hf].
  rewrite merge_sort_Permutation in Hf.
  rewrite file_intents_build in Hi. unfold file_build in Hi.
  destruct (load_module f) as [module|e]; [|by apply elem_of_nil in Hi].
  apply build_intents_from in Hi as (d & _ & Hd).
  apply intent_from_dict_fields in Hd as (_ & _ & Hp & Hde & _).
  split; [done|]. by exists f.
Qed.

Lemma similarities_never_KeyError st doc i :
  similarity_total sp ->
  (forall ex, ex ∈ examples i -> is_Some (_example_docs st !! (name i, ex))) ->
  exists sims, similarities st doc (name i) (examples i) = Returned sims.
Proof.
  intros Hsim. generalize (name i) as n.
  induction (examples i) as [|ex exs IH]; intros n Hc; simpl; [by eexists|].
  destruct (IH n) as [tl Htl].
  { intros ex' Hex'. apply Hc. by right. }
  unfold example_doc. destruct (Hc ex) as [d ->]; [left|]. simpl.
  destruct (0 <? doc_len sp d)%nat; [|by eexists].
  destruct (Hsim doc d) as (q & ->). simpl. rewrite Htl. by eexists.
Qed.

Lemma matches_total st text :
  similarity_total sp -> cache_complete st ->
  exists ms, matches st text = Returned ms.
Proof.
  intros Hsim Hc. unfold matches.
  set (doc := nlp sp text). set (hits := phrase_hits st doc).
  assert (Hall : Forall (fun i => i ∈ _intents st) (_intents st))
    by by apply Forall_forall.
  revert Hall. generalize (_intents st) at 2 3 as l.
  induction l as [|i l IH]; intros Hall; [by exists []|].
  apply Forall_cons in Hall as [Hi Hall]. destruct (IH Hall) as [ms Hms].
  destruct (similarities_never_KeyError st doc i Hsim) as [sims Hsims].
  { intros ex Hex. by apply Hc. }
  eexists. apply mapM_Returned. constructor; [|by apply mapM_Returned].
  unfold score_intent. by rewrite Hsims.
Qed.

(** X10. After a discovery pass the cache has all the router looks up:
    when the similarity itself never raises, [route] returns for
    every input, whatever the core was before the pass. *)
Theorem route_returns_after_discovery st files text :
  similarity_total sp ->
  exists r, route (discover_plugins st files) text = Returned r.
Proof.
  intros Hsim.
  destruct (matches_total (discover_plugins st files) text Hsim) as [ms Hms].
  { apply discover_cache_complete. }
  eexists. apply route_Returned. by exists ms.
Qed.

End Registry.

(** ** Repeated discovery *)

Section Rediscovery.

Context {sp : Spacy}.
Implicit Types (st : JarCore sp) (f : PluginFile) (i : Intent).

Lemma JarCore_eq st1 st2 :
  session st1 = session st2 -> _intents st1 = _intents st2 ->
  _example_docs st1 = _example_docs st2 ->
  _phrase_matcher st1 = _phrase_matcher st2 ->
  _plugin_errors st1 = _plugin_errors st2 -> st1 = st2.
Proof. destruct st1, st2. simpl. by intros -> -> -> -> ->. Qed.

Lemma discover_plugins_session st files :
  session (discover_plugins st files) = session st.
Proof.
  rewrite discover_plugins_unfold.
  cbn [_build_matchers set_phrase_matcher set_plugin_errors session].
  by destruct (register_all_rest (set_intents st [])
    (flat_map (file_intents sp) (filter visible (merge_sort path_le files))))
    as (-> & _).
Qed.

Lemma discover_plugins_errors st files :
  _plugin_errors (discover_plugins st files) =
    foldl (record_error sp) (_plugin_errors st) (merge_sort path_le files).
Proof. by rewrite discover_plugins_unfold. Qed.

Lemma discover_plugins_matcher st files :
  _phrase_matcher (discover_plugins st files) =
    Some (phrase_index sp (_intents (discover_plugins st files))).
Proof. done. Qed.

Lemma record_errors_lookup_from (errs : gmap string string)
    (l : list PluginFile) (k : string) (acc base : option string) :
  errs !! k = match acc with Some v => Some v | None => base end ->
  foldl (record_error sp) errs l !! k =
    match foldl (fun acc f =>
             if decide (visible f /\ path_stem f = k) then
               match file_error sp f with
               | Some e => Some (str e)
               | None => acc
               end
             else acc) acc l with
    | Some v => Some v
    | None => base
    end.
Proof.
  revert errs acc. induction l as [|f l IH]; intros errs acc Hinv; [done|].
  cbn [foldl]. apply IH. unfold record_error.
  destruct (decide (visible f)) as [Hv|Hv].
  - destruct (file_error sp f) as [e|].
    + destruct (decide (path_stem f = k)) as [->|Hne].
      * rewrite lookup_insert_eq. by rewrite decide_True.
      * rewrite lookup_insert_ne by done. rewrite decide_False; [done|].
        by intros [_ ?].
    + by destruct (decide _).
  - rewrite decide_False; [done|]. by intros [? _].
Qed.

Lemma record_errors_lookup (errs : gmap string string) (l : list PluginFile)
    (k : string) :
  foldl (record_error sp) errs l !! k =
    match last_error sp l k with
    | Some v => Some v
    | None => errs !! k
    end.
Proof. by apply record_errors_lookup_from. Qed.

(** X11. Discovering twice over the same directory gives the same core
    as discovering once: the intent list, the matcher, the cache, the
    error map and the session of the second pass are those of the
    first. *)
Theorem discover_plugins_idempotent st files :
  discover_plugins (discover_plugins st files) files = discover_plugins st files.
Proof.
  apply JarCore_eq.
  - by rewrite !discover_plugins_session.
  - by rewrite !discover_plugins_intents.
  - apply map_eq. intros k. rewrite (discover_plugins_docs _ files k).
    rewrite !discover_plugins_intents.
    case_decide as Hk; [|done].
    by rewrite discover_plugins_docs, discover_plugins_intents, decide_True.
  - by rewrite !discover_plugins_matcher, !discover_plugins_intents.
  - apply map_eq. intros k. rewrite !discover_plugins_errors.
    rewrite !record_errors_lookup. by destruct (last_error sp _ k).
Qed.

(** X12. The error map is never emptied and only failing files write to
    it: under a stem that no visible file of this pass fails with,
    the entry after the pass is the entry before it, so the error of
    a plugin that has been repaired or removed stays recorded. *)
Theorem discover_keeps_old_errors st files (k : string) :
  (forall f, f ∈ files -> visible f -> path_stem f = k -> file_error sp f = None) ->
  _plugin_errors (discover_plugins st files) !! k = _plugin_errors st !! k.
Proof.
  intros Hok. rewrite discover_plugins_errors.
  assert (forall f, f ∈ merge_sort path_le files -> visible f ->
                    path_stem f = k -> file_error sp f = None) as Hok'.
  { intros f Hf. apply Hok. by rewrite merge_sort_Permutation in Hf. }
  clear Hok. revert Hok'. generalize (merge_sort path_le files) as l.
  generalize (_plugin_errors st) as errs.
  intros errs l. revert errs. induction l as [|f l IH]; intros errs Hok; [done|].
  cbn [foldl]. rewrite IH by (intros g Hg; apply Hok; by right).
  unfold record_error. destruct (decide (visible f)) as [Hv|]; [|done].
  destruct (file_error sp f) as [e|] eqn:He; [|done].
  rewrite lookup_insert_ne; [done|]. intros Hk.
  rewrite (Hok f) in He; [done | left | done | done].
Qed.

#[local] Instance path_le_trans : Transitive path_le.
Proof.
  intros a b c. unfold path_le. intros H1%Is_true_true H2%Is_true_true.
  apply Is_true_true.
  exact (transitivity (R:=String.le) H1 H2).
Qed.

#[local] Instance path_le_total : Total path_le.
Proof. intros a b. unfold path_le. apply String.leb_total. Qed.

Lemma path_name_inj (l : list PluginFile) a b :
  NoDup (map path_name l) -> a ∈ l -> b ∈ l -> path_name a = path_name b -> a = b.
Proof.
  induction l as [|x l IH]; [by intros _ ?%elem_of_nil|].
  cbn [map]. intros [Hx Hnd]%NoDup_cons Ha Hb Hn.
  apply elem_of_cons in Ha as [-> | Ha], Hb as [-> | Hb]; [done| | |by apply IH].
  - destruct Hx. rewrite Hn. apply list_elem_of_In, in_map. by apply list_elem_of_In.
  - destruct Hx. rewrite <- Hn. apply list_elem_of_In, in_map. by apply list_elem_of_In.
Qed.

Lemma sorted_paths_unique (l1 l2 : list PluginFile) :
  NoDup (map path_name l1) -> l1 ≡ₚ l2 ->
  Sorted path_le l1 -> Sorted path_le l2 -> l1 = l2.
Proof.
  intros Hnd Hp H1 H2. apply (Sorted_unique_strong path_le); try done.
  intros a b Ha Hb Hab Hba. apply (path_name_inj l1); try done.
  - by rewrite Hp.
  - by apply String.leb_antisym.
Qed.

Lemma NoDup_names_Permutation (l1 l2 : list PluginFile) :
  l1 ≡ₚ l2 -> NoDup (map path_name l1) -> NoDup (map path_name l2).
Proof.
  intros Hp. assert (map path_name l1 ≡ₚ map path_name l2) as ->; [|done].
  by apply Permutation_map.
Qed.

(** X13. The order in which the directory lists its files does not matter:
    two listings of the same files, with distinct names, are sorted
    into the same order and give the same core. *)
Theorem discover_ignores_listing_order st (files files' : list PluginFile) :
  NoDup (map path_name files) -> files ≡ₚ files' ->
  discover_plugins st files = discover_plugins st files'.
Proof.
  intros Hnd Hp. unfold discover_plugins.
  assert (merge_sort path_le files = merge_sort path_le files') as ->; [|done].
  apply sorted_paths_unique.
  - apply (NoDup_names_Permutation files); [|done].
    by rewrite merge_sort_Permutation.
  - by rewrite !merge_sort_Permutation.
  - apply (Sorted_merge_sort path_le).
  - apply (Sorted_merge_sort path_le).
Qed.

Lemma StronglySorted_filter_paths (P : PluginFile -> Prop)
    `{!forall f, Decision (P f)} (l : list PluginFile) :
  StronglySorted path_le l -> StronglySorted path_le (filter P l).
Proof.
  induction 1 as [|x l Hl IH Hx]; [constructor|].
  rewrite filter_cons. case_decide; [|done]. constructor; [done|].
  apply Forall_forall. intros y [_ Hy]%list_elem_of_filter.
  by eapply Forall_forall in Hx.
Qed.

Lemma discover_steps_hidden st (l : list PluginFile) :
  foldl discover_step st (filter visible l) = foldl discover_step st l.
Proof.
  revert st. induction l as [|f l IH]; intros st; [done|].
  rewrite filter_cons. cbn [foldl]. destruct (decide (visible f)) as [Hv|Hv].
  - cbn [foldl]. apply IH.
  - rewrite IH. unfold discover_step at 3.
    destruct (String.prefix "_" (path_name f)) eqn:E; [done|]. by destruct Hv.
Qed.

(** X14. Files whose name starts with an underscore are skipped
    altogether: a directory gives the same core as the directory
    without them (names being distinct). *)
Theorem discover_skips_hidden_files st (files : list PluginFile) :
  NoDup (map path_name files) ->
  discover_plugins st files = discover_plugins st (filter visible files).
Proof.
  intros Hnd. unfold discover_plugins.
  rewrite <- (discover_steps_hidden _ (merge_sort path_le files)).
  assert (filter visible (merge_sort path_le files) =
          merge_sort path_le (filter visible files)) as ->; [|done].
  apply sorted_paths_unique.
  - assert (NoDup (map path_name (merge_sort path_le files))) as Hs.
    { apply (NoDup_names_Permutation files); [|done].
      by rewrite merge_sort_Permutation. }
    revert Hs. generalize (merge_sort path_le files) as l.
    induction l as [|x l IH]; [done|]. cbn [map]. intros [Hx Hl]%NoDup_cons.
    rewrite filter_cons. case_decide; [|by apply IH].
    cbn [map]. apply NoDup_cons. split; [|by apply IH].
    intros Hin. apply Hx. apply list_elem_of_In, in_map_iff in Hin as (y & Hy & Hin).
    apply list_elem_of_In, list_elem_of_filter in Hin as [_ Hin].
    rewrite <- Hy. apply list_elem_of_In, in_map. by apply list_elem_of_In.
  - by rewrite !merge_sort_Permutation.
  - apply Sorted.StronglySorted_Sorted, StronglySorted_filter_paths.
    apply (StronglySorted_merge_sort path_le).
  - apply (Sorted_merge_sort path_le).
Qed.

Lemma last_error_from (l : list PluginFile) (k : string) (acc : option string) :
  is_Some (foldl (fun acc f =>
             if decide (visible f /\ path_stem f = k) then
               match file_error sp f with
               | Some e => Some (str e)
               | None => acc
               end
             else acc) acc l) <->
  is_Some acc \/
  exists f, f ∈ l /\ visible f /\ path_stem f = k /\ is_Some (file_error sp f).
Proof.
  revert acc. induction l as [|f l IH]; intros acc; cbn [foldl].
  - split; [by left|]. intros [? | (f & Hf%elem_of_nil & _)]; done.
  - rewrite IH. split.
    + intros [Hacc | (g & Hg & Hrest)].
      * destruct (decide (visible f /\ path_stem f = k)) as [[Hv Hk]|]; [|by left].
        destruct (file_error sp f) as [e|] eqn:He; [|by left].
        right. exists f. rewrite He. split; [left | done].
      * right. exists g. split; [by right | done].
    + intros [Hacc | (g & [-> | Hg]%elem_of_cons & Hv & Hk & He)].
      * left. destruct (decide _); [|done]. by destruct (file_error sp f).
      * left. rewrite decide_True by done. by destruct He as [e ->].
      * right. by exists g.
Qed.

(** X29. After [__init__] the error map names exactly the failures: a stem
    has an entry if and only if a visible file of the directory with
    that stem failed to load. *)
Theorem init_errors_are_failures (files : list PluginFile) (k : string) :
  is_Some (_plugin_errors (init sp files) !! k) <->
  exists f, f ∈ files /\ visible f /\ path_stem f = k /\
            is_Some (file_error sp f).
Proof.
  unfold init. rewrite discover_plugins_errors, record_errors_lookup. simpl.
  rewrite lookup_empty.
  assert (is_Some (match last_error sp (merge_sort path_le files) k with
                   | Some v => Some v
                   | None => None
                   end) <-> is_Some (last_error sp (merge_sort path_le files) k))
    as -> by by destruct (last_error sp _ k).
  unfold last_error. rewrite last_error_from. split.
  - intros [[? [=]] | (f & Hf & Hrest)].
    exists f. by rewrite merge_sort_Permutation in Hf.
  - intros (f & Hf & Hrest). right. exists f.
    by rewrite merge_sort_Permutation.
Qed.

End Rediscovery.

(** ** Dispatch and the score components *)

Section Dispatch.

Context {sp : Spacy}.
Implicit Types (st : JarCore sp) (i : Intent) (m : IntentMatch).






End Dispatch.

(** ** The command loops *)

Section LoopProperties.

Context {sp : Spacy} (py : Builtins).
Implicit Types (st : JarCore sp) (ins : list input_event).

Lemma snd_emit (pre : list output) (r : list output * JarCore sp * ending) :
  snd (emit pre r) = snd r.
Proof. by destruct r as [[? ?] ?]. Qed.


(** X17. Once the loop of [main.py] has met the command to leave or an
    exception of a handler, it reads nothing more: whatever input
    follows, the output, the core and the ending are the same. *)
Theorem main_loop_stops_reading st ins (more : list input_event) :
  snd (main_loop py st ins) = Quit \/
    (exists e, snd (main_loop py st ins) = Uncaught e) ->
  main_loop py st (ins ++ more) = main_loop py st ins.
Proof.
  revert st. induction ins as [|[raw|] ins IH]; intros st; simpl.
  - intros [? | [e ?]]; done.
  - destruct (String.eqb (strip py raw) "").
    { rewrite snd_emit. intros H. by rewrite IH. }
    destruct (bool_decide _); [done|].
    destruct (handle st (strip py raw)) as [[r|e] st']; [|done].
    rewrite snd_emit. intros H. by rewrite IH.
  - intros [? | [e ?]]; done.
Qed.




(** X19. When the loop of [main.py] ends with the command to leave, the
    loop of [core.py] does exactly the same on the same input: the
    same output, the same core, the same ending. *)
Theorem loops_agree_on_quit st ins :
  snd (main_loop py st ins) = Quit ->
  core_loop py st ins = main_loop py st ins.
Proof.
  revert st. induction ins as [|[raw|] ins IH]; intros st; simpl; [done| |done].
  destruct (String.eqb (strip py raw) "").
  { rewrite snd_emit. intros H. by rewrite IH. }
  destruct (bool_decide _); [done|].
  destruct (handle st (strip py raw)) as [[r|e] st']; [|done].
  rewrite snd_emit. intros H. by rewrite IH.
Qed.


End LoopProperties.

(** ** Installing packages *)

(** X21. Empty package names are never passed to pip: with no name left
    nothing is run and the call returns, and otherwise the command
    run is the pip invocation followed by the non-empty names in
    their order. *)
Theorem pip_install_skips_empty_names (executable : string)
    (check_call : list string -> outcome unit) (packages : list string) :
  (Forall (fun p => p = "") packages ->
   _pip_install executable check_call packages = Returned tt) /\
  (~ Forall (fun p => p = "") packages ->
   _pip_install executable check_call packages =
     check_call ([executable; "-m"; "pip"; "install"; "--user"] ++
                 filter (fun p => p <> "") packages)).
Proof.
  unfold _pip_install. split.
  - intros Hall.
    assert (filter (fun p => p <> "") packages = []) as ->; [|done].
    induction Hall as [|p l -> _ IH]; [done|].
    rewrite filter_cons. by rewrite decide_False by (by intros ?).
  - intros Hne. destruct (filter (fun p => p <> "") packages) eqn:E; [|done].
    destruct Hne. apply Forall_forall. intros p Hp.
    destruct (decide (p = "")) as [|Hp']; [done|].
    assert (p ∈ filter (fun p => p <> "") packages) as Hin
      by by apply list_elem_of_filter.
    rewrite E in Hin. by apply elem_of_nil in Hin.
Qed.

(** ** The chat plugin *)

Section ChatProperties.

Context (py : Builtins).

Lemma or_None_not_empty (val : string) : Chat.or_None val <> Some "".
Proof.
  unfold Chat.or_None. destruct (String.eqb_spec val ""); [done|]. congruence.
Qed.

Lemma split_eq_join (line k v : string) :
  Chat.split_eq line = Some (k, v) -> line = k +:+ "=" +:+ v.
Proof.
  revert k. induction line as [|c line IH]; intros k; [discriminate|].
  cbn [Chat.split_eq].
  destruct (String.eqb_spec (String c EmptyString) "=") as [[= ->]|_].
  - intros [= <- <-]. reflexivity.
  - destruct (Chat.split_eq line) as [[k' v']|]; [|done].
    intros [= <- <-]. rewrite (IH k' eq_refl) at 1. reflexivity.
Qed.

Lemma scan_lines_not_empty (l : list string) : Chat.scan_lines py l <> Some "".
Proof.
  induction l as [|raw l IH]; simpl; [done|].
  destruct (String.eqb (strip py raw) "" || String.prefix "#" (strip py raw));
    [done|].
  destruct (Chat.split_eq (strip py raw)) as [[k v]|]; [|done].
  destruct (String.eqb (strip py k) "GROQ_API_KEY"); [|done].
  apply or_None_not_empty.
Qed.

Lemma dotenv_key_not_empty (file : Chat.dotenv) :
  Chat._read_dotenv_key py file <> Some "".
Proof. destruct file as [|e|l]; simpl; [done..|]. apply scan_lines_not_empty. Qed.

(** X22. The key read from [.env] is never the empty string, and there is
    none when the file is missing or cannot be read. *)
Theorem read_dotenv_key_never_empty (file : Chat.dotenv) :
  Chat._read_dotenv_key py file <> Some "" /\
  (file = Chat.NoFile \/ (exists e, file = Chat.Unreadable e) ->
   Chat._read_dotenv_key py file = None).
Proof.
  split; [apply dotenv_key_not_empty | by intros [-> | [e ->]]].
Qed.

(** X23. The first line of [.env] that assigns [GROQ_API_KEY] decides,
    whatever follows it: the key is its value with blanks and quotes
    stripped, and when that is empty there is no key, even if a later
    line assigns one. Blank lines, comments and other assignments
    before it are passed over. *)
Theorem first_key_assignment_decides (pre rest : list string) (raw v : string) :
  Forall (fun r => key_assignment py r = None) pre ->
  key_assignment py raw = Some v ->
  Chat._read_dotenv_key py (Chat.Lines (pre ++ raw :: rest)) =
    Chat.or_None (strip_chars py "'" (strip_chars py Chat.dquote (strip py v))).
Proof.
  intros Hpre Hraw. simpl. unfold key_assignment in *.
  induction Hpre as [|r pre Hr _ IH]; simpl.
  - destruct (String.eqb (strip py raw) "" || String.prefix "#" (strip py raw));
      [done|].
    destruct (Chat.split_eq (strip py raw)) as [[k v']|]; [|done].
    destruct (String.eqb (strip py k) "GROQ_API_KEY"); [|done].
    by injection Hraw as ->.
  - destruct (String.eqb (strip py r) "" || String.prefix "#" (strip py r));
      [done|].
    destruct (Chat.split_eq (strip py r)) as [[k v']|]; [|done].
    by destruct (String.eqb (strip py k) "GROQ_API_KEY").
Qed.

(** X24. The key the plugin uses is never the empty string. A non-empty
    environment variable is used before anything else, and there is
    no key only when the variable is unset or empty, the file gives
    none and the constant in the source is blank. *)
Theorem get_api_key_precedence (env : Chat.Env) :
  Chat._get_api_key py env <> Some "" /\
  (forall k, Chat.environ env = Some k -> k <> "" ->
     Chat._get_api_key py env = Some k) /\
  (Chat._get_api_key py env = None <->
   (Chat.environ env = None \/ Chat.environ env = Some "") /\
   Chat._read_dotenv_key py (Chat.env_file env) = None /\
   strip py (Chat.API_KEY env) = "").
Proof.
  unfold Chat._get_api_key.
  pose proof (dotenv_key_not_empty (Chat.env_file env)) as Hf.
  assert (Hor : forall val, Chat.or_None val = None <-> val = "").
  { intros val. unfold Chat.or_None. by destruct (String.eqb_spec val ""). }
  split; [|split].
  - destruct (Chat.environ env) as [[|c s]|]; try done;
      (destruct (Chat._read_dotenv_key py (Chat.env_file env)) as [[|c' s']|];
       [done | done | apply or_None_not_empty]).
  - intros k -> Hk. by destruct k.
  - destruct (Chat.environ env) as [[|c s]|];
      destruct (Chat._read_dotenv_key py (Chat.env_file env)) as [[|c' s']|];
      try done; rewrite ?Hor; intuition (try congruence).
Qed.

Lemma handle_chat_unfold env text session k conv :
  Chat._get_api_key py env = Some k ->
  session !! "conversation" = Some (Chat.CConversation conv) ->
  Chat.handle_chat py env text session =
    match Chat.post env k (conv ++ [user_message text]) with
    | Returned raw =>
        (Returned (Chat._clean_model_output py raw),
         <["conversation" := Chat.CConversation
             ((conv ++ [user_message text]) ++
              [assistant_message (Chat._clean_model_output py raw)])]> session)
    | Raised e =>
        (Returned ("Chat failed: " +:+ str e),
         <["conversation" := Chat.CConversation (conv ++ [user_message text])]>
           session)
    end.
Proof.
  intros Hk Hc. unfold Chat.handle_chat, Chat.setdefault_conversation.
  by rewrite Hk, Hc.
Qed.

(** X25. [handle_chat] answers with a text whatever the backend does.
    On a session whose conversation is absent, a list, or a value
    without [append] (a string, a number, [None], a dict or any other
    such object), it raises exactly when a key is available and the
    session holds a value without [append] where the conversation
    should be. What it raises then is the [AttributeError] of that
    value, and the session is left as it was. In every other case,
    and so whenever the conversation is absent or a list, it returns
    a text. *)
Theorem handle_chat_raises_only_without_append env text
    (session : Chat.ChatSession) :
  (forall e,
     fst (Chat.handle_chat py env text session) = Raised e <->
     (exists k, Chat._get_api_key py env = Some k) /\
     exists v t,
       session !! "conversation" = Some v /\ Chat.lacks_append v = Some t /\
       e = AttributeError (Chat.no_append_message t)) /\
  ((forall v, session !! "conversation" = Some v ->
      Chat.lacks_append v = None) ->
   exists reply, fst (Chat.handle_chat py env text session) = Returned reply) /\
  (forall e, fst (Chat.handle_chat py env text session) = Raised e ->
     snd (Chat.handle_chat py env text session) = session).
Proof.
  unfold Chat.handle_chat, Chat.setdefault_conversation.
  destruct (Chat._get_api_key py env) as [k|].
  - destruct (session !! "conversation") as [[s|conv|t]|] eqn:Ec; simpl.
    + split; [|split].
      * intros e. split.
        -- intros [= <-]. split; [by exists k|]. by exists (Chat.CStr s), "str".
        -- intros (_ & v & t & [= <-] & [= <-] & ->). reflexivity.
      * intros H. by specialize (H _ eq_refl).
      * done.
    + split; [|split].
      * intros e. split.
        -- by destruct (Chat.post env k _).
        -- intros (_ & v & t & [= <-] & [=] & _).
      * intros _. destruct (Chat.post env k _); by eexists.
      * intros e. by destruct (Chat.post env k _).
    + split; [|split].
      * intros e. split.
        -- intros [= <-]. split; [by exists k|]. by exists (Chat.CObject t), t.
        -- intros (_ & v & t' & [= <-] & [= <-] & ->). reflexivity.
      * intros H. by specialize (H _ eq_refl).
      * done.
    + split; [|split].
      * intros e. split.
        -- by destruct (Chat.post env k _).
        -- intros (_ & v & t & [=] & _).
      * intros _. destruct (Chat.post env k _); by eexists.
      * intros e. by destruct (Chat.post env k _).
  - simpl. split; [|split].
    + intros e. split; [done|]. by intros [[k [=]] _].
    + intros _. by eexists.
    + done.
Qed.

(** X26. The conversation only grows: a call keeps the messages that were
    there, in their order, adds at most the message of the user and
    the reply, and touches no other key of the session. *)
Theorem handle_chat_extends_history env text (session : Chat.ChatSession) conv :
  session !! "conversation" = Some (Chat.CConversation conv) ->
  exists added,
    snd (Chat.handle_chat py env text session) !! "conversation" =
      Some (Chat.CConversation (conv ++ added)) /\
    (length added <= 2)%nat /\
    forall key, key <> "conversation" ->
      snd (Chat.handle_chat py env text session) !! key = session !! key.
Proof.
  intros Hc. destruct (Chat._get_api_key py env) as [k|] eqn:Ek.
  - rewrite (handle_chat_unfold env text session k conv Ek Hc).
    destruct (Chat.post env k _) as [raw|e]; simpl.
    + eexists [_; _]. rewrite lookup_insert_eq, <- app_assoc.
      split; [done|]. split; [done|]. intros key Hkey.
      by rewrite lookup_insert_ne.
    + eexists [_]. rewrite lookup_insert_eq.
      split; [done|]. split; [simpl; lia|]. intros key Hkey.
      by rewrite lookup_insert_ne.
  - unfold Chat.handle_chat. rewrite Ek. simpl. exists [].
    rewrite app_nil_r. split; [done|]. split; [simpl; lia | done].
Qed.

(** X27. A request that fails leaves the message of the user in the
    conversation without a reply, and the next call sends it again
    in front of the new message. *)
Theorem failed_request_is_sent_again env env' text text'
    (session : Chat.ChatSession) conv k k' e :
  session !! "conversation" = Some (Chat.CConversation conv) ->
  Chat._get_api_key py env = Some k ->
  Chat.post env k (conv ++ [user_message text]) = Raised e ->
  Chat._get_api_key py env' = Some k' ->
  Chat.handle_chat py env text session =
    (Returned ("Chat failed: " +:+ str e),
     <["conversation" := Chat.CConversation (conv ++ [user_message text])]>
       session) /\
  fst (Chat.handle_chat py env' text'
         (snd (Chat.handle_chat py env text session))) =
    match Chat.post env' k' (conv ++ [user_message text; user_message text']) with
    | Returned raw => Returned (Chat._clean_model_output py raw)
    | Raised e' => Returned ("Chat failed: " +:+ str e')
    end.
Proof.
  intros Hc Hk Hp Hk'.
  rewrite (handle_chat_unfold env text session k conv Hk Hc), Hp.
  split; [done|]. simpl.
  rewrite (handle_chat_unfold env' text' _ k' (conv ++ [user_message text]) Hk')
    by apply lookup_insert_eq.
  rewrite <- app_assoc. simpl. by destruct (Chat.post env' k' _).
Qed.

(** X28. The first call on a session without a conversation starts one
    with the system prompt: what is sent is the system message
    followed by the message of the user, and the conversation stored
    is these two and then the reply, if there is one. *)
Theorem first_call_starts_with_system_prompt env text
    (session : Chat.ChatSession) k :
  session !! "conversation" = None ->
  Chat._get_api_key py env = Some k ->
  Chat.handle_chat py env text session =
    match Chat.post env k [system_message; user_message text] with
    | Returned raw =>
        (Returned (Chat._clean_model_output py raw),
         <["conversation" := Chat.CConversation
             [system_message; user_message text;
              assistant_message (Chat._clean_model_output py raw)]]> session)
    | Raised e =>
        (Returned ("Chat failed: " +:+ str e),
         <["conversation" := Chat.CConversation
             [system_message; user_message text]]> session)
    end.
Proof.
  intros Hc Hk. unfold Chat.handle_chat, Chat.setdefault_conversation.
  rewrite Hk, Hc. simpl.
  destruct (Chat.post env k _) as [raw|e]; by rewrite insert_insert_eq.
Qed.

End ChatProperties.

(** * Further concrete runs *)

Lemma fixture_similarity_total : similarity_total Fixture.spacy.
Proof. intros d d'. by eexists. Qed.

Lemma wrapped_masks_body_TypeError_witness :
  _wrapped Sample.strict_flaky "hi" ∅ =
    (Raised (TypeError "strict() takes 2 positional arguments"),
     <["n" := PyInt 1]> ∅).
Proof.
  apply (wrapped_masks_body_TypeError Sample.strict_flaky "hi" ∅
           (<["n" := PyInt 1]> ∅) "unsupported operand type(s) for +");
    reflexivity.
Defined.

Lemma load_stops_at_first_bad_descriptor_witness :
  _intents (_load_plugin_file (blank Fixture.spacy) Sample.partial_py) =
    [] ++ [Sample.first_intent] /\
  _plugin_errors (_load_plugin_file (blank Fixture.spacy) Sample.partial_py) =
    <["partial" := "Handler for intent 'second' is not callable: 42"]> ∅.
Proof.
  eapply (load_stops_at_first_bad_descriptor (blank Fixture.spacy)
            Sample.partial_py _
            [Fixture.descriptor "first" ["one"] (Direct (Func Fixture.echo)) None]
            [Fixture.descriptor "third" ["three"] (Direct (Func Fixture.echo)) None]
            (Fixture.descriptor "second" ["two"] (Direct (NotCallable "42")) None)
            [Sample.first_intent]
            (TypeError "Handler for intent 'second' is not callable: 42")).
  - reflexivity.
  - reflexivity.
  - repeat constructor.
  - reflexivity.
Defined.

Lemma convention_handler_registered_witness :
  _intents (_load_plugin_file (blank Fixture.spacy) Sample.legacy_py) =
    [] ++ [convention_intent Fixture.echo "legacy"] /\
  _plugin_errors (_load_plugin_file (blank Fixture.spacy) Sample.legacy_py) = ∅.
Proof.
  apply (convention_handler_registered (blank Fixture.spacy) Sample.legacy_py
           Sample.legacy_module Fixture.echo);
    [reflexivity | by left | reflexivity].
Defined.

Lemma empty_plugin_leaves_no_trace_witness :
  _load_plugin_file Fixture.core3 Sample.empty_py = Fixture.core3.
Proof.
  apply (empty_plugin_leaves_no_trace Fixture.core3 Sample.empty_py
           Sample.empty_module);
    [reflexivity | by right | reflexivity].
Defined.

Lemma failed_install_recorded_witness :
  _load_plugin_file (blank Fixture.spacy) Sample.net_py =
    set_plugin_errors (blank Fixture.spacy)
      (<["net" := "Command returned non-zero exit status 1."]> ∅).
Proof.
  apply (failed_install_recorded (blank Fixture.spacy) Sample.net_py
           (Some "requests") "No module named 'requests'" "requests"
           (CalledProcessError "Command returned non-zero exit status 1."));
    reflexivity.
Defined.

Lemma discovered_intents_origin_witness :
  description Fixture.chat_intent = "" /\
  exists f, f ∈ [Fixture.weather_py; Fixture.chat_py; Fixture.broken_py] /\
            visible f /\ plugin Fixture.chat_intent = path_stem f.
Proof.
  apply (discovered_intents_origin (blank Fixture.spacy)
           [Fixture.weather_py; Fixture.chat_py; Fixture.broken_py]).
  apply list_elem_of_here.
Defined.

Lemma route_returns_after_discovery_witness :
  exists r,
    route (discover_plugins (blank Fixture.spacy) [Fixture.chat_py]) "hello" =
      Returned r.
Proof.
  apply (route_returns_after_discovery (blank Fixture.spacy) [Fixture.chat_py]
           "hello" fixture_similarity_total).
Defined.

Lemma discover_keeps_old_errors_witness :
  _plugin_errors (discover_plugins Fixture.core3 [Fixture.chat_py]) !! "broken" =
    _plugin_errors Fixture.core3 !! "broken".
Proof.
  apply (discover_keeps_old_errors Fixture.core3 [Fixture.chat_py] "broken").
  intros f ->%list_elem_of_singleton _ Hstem. discriminate Hstem.
Defined.

Lemma discover_ignores_listing_order_witness :
  discover_plugins (blank Fixture.spacy) [Fixture.weather_py; Fixture.chat_py] =
  discover_plugins (blank Fixture.spacy) [Fixture.chat_py; Fixture.weather_py].
Proof.
  apply (discover_ignores_listing_order (blank Fixture.spacy)).
  - apply (bool_decide_unpack _). reflexivity.
  - apply perm_swap.
Defined.

Lemma discover_skips_hidden_files_witness :
  discover_plugins (blank Fixture.spacy) [Sample.hidden_py; Fixture.chat_py] =
  discover_plugins (blank Fixture.spacy)
    (filter visible [Sample.hidden_py; Fixture.chat_py]).
Proof.
  apply (discover_skips_hidden_files (blank Fixture.spacy)).
  apply (bool_decide_unpack _). reflexivity.
Defined.



Lemma main_loop_stops_reading_witness :
  main_loop Sample.builtins Fixture.core3
    ([Line "hello"; Line " Exit "] ++ [Line "weather today"]) =
  main_loop Sample.builtins Fixture.core3 [Line "hello"; Line " Exit "].
Proof.
  apply (main_loop_stops_reading Sample.builtins Fixture.core3).
  left. reflexivity.
Defined.

Lemma loops_agree_on_quit_witness :
  core_loop Sample.builtins Fixture.core3 [Line "hello"; Line ""; Line "quit"] =
  main_loop Sample.builtins Fixture.core3 [Line "hello"; Line ""; Line "quit"].
Proof.
  apply (loops_agree_on_quit Sample.builtins Fixture.core3). reflexivity.
Defined.

Lemma first_key_assignment_decides_witness :
  Chat._read_dotenv_key Sample.builtins
    (Chat.Lines (["# keys"; "OTHER=1"] ++ "GROQ_API_KEY = 'abc'" :: ["GROQ_API_KEY=zzz"])) =
    Some "abc".
Proof.
  rewrite (first_key_assignment_decides Sample.builtins
             ["# keys"; "OTHER=1"] ["GROQ_API_KEY=zzz"]
             "GROQ_API_KEY = 'abc'" " 'abc'");
    [reflexivity | repeat constructor | reflexivity].
Defined.

Lemma handle_chat_raises_only_without_append_witness :
  fst (Chat.handle_chat Sample.builtins Sample.env_up "hi"
         {[ "conversation" := Chat.CObject "int" ]}) =
    Raised (AttributeError "'int' object has no attribute 'append'") /\
  exists reply,
    fst (Chat.handle_chat Sample.builtins Sample.env_down "hi" ∅) =
      Returned reply.
Proof.
  split.
  - apply (handle_chat_raises_only_without_append Sample.builtins Sample.env_up
             "hi" {[ "conversation" := Chat.CObject "int" ]}).
    split; [by eexists|]. exists (Chat.CObject "int"), "int".
    split; [reflexivity|]. split; reflexivity.
  - apply (handle_chat_raises_only_without_append Sample.builtins
             Sample.env_down "hi" ∅).
    intros v. rewrite lookup_empty. discriminate.
Defined.

Lemma handle_chat_extends_history_witness :
  exists added,
    snd (Chat.handle_chat Sample.builtins Sample.env_up "and now?" Sample.talked)
      !! "conversation" =
      Some (Chat.CConversation
              ([system_message; user_message "hi"; assistant_message "Hello."]
               ++ added)) /\
    (length added <= 2)%nat /\
    forall key, key <> "conversation" ->
      snd (Chat.handle_chat Sample.builtins Sample.env_up "and now?" Sample.talked)
        !! key = Sample.talked !! key.
Proof.
  apply (handle_chat_extends_history Sample.builtins Sample.env_up "and now?"
           Sample.talked).
  reflexivity.
Defined.

Lemma failed_request_is_sent_again_witness :
  fst (Chat.handle_chat Sample.builtins Sample.env_up "again"
         (snd (Chat.handle_chat Sample.builtins Sample.env_down "first"
                 Sample.talked))) =
    Returned "Hello.".
Proof.
  destruct (failed_request_is_sent_again Sample.builtins Sample.env_down
              Sample.env_up "first" "again" Sample.talked
              [system_message; user_message "hi"; assistant_message "Hello."]
              "key-of-the-environment" "key-of-the-environment"
              (OtherException "connection refused")) as [_ H];
    [reflexivity .. |].
  rewrite H. reflexivity.
Defined.

Lemma first_call_starts_with_system_prompt_witness :
  Chat.handle_chat Sample.builtins Sample.env_up "hi" ∅ =
    (Returned "Hello.", Sample.talked).
Proof.
  rewrite (first_call_starts_with_system_prompt Sample.builtins Sample.env_up
             "hi" ∅ "key-of-the-environment");
    reflexivity.
Defined.

(** * Discovery and dispatch, end to end *)

Section EndToEnd.

Context {sp : Spacy}.
Implicit Types (st c : JarCore sp) (f : PluginFile) (i : Intent).

Lemma wrapped_tries_arities (raw : pyfunc) : tries_arities raw (_wrapped raw).
Proof.
  intros text s. split; [|split].
  - intros H2 Hb. rewrite wrapped_no_TypeError; rewrite call_accepted; done.
  - intros H2 H1 Hb.
    rewrite (wrapped_after_TypeError raw text s s _
               (call_rejected raw [ArgText text; ArgCore] s H2)).
    rewrite call_accepted by done.
    destruct (body raw [ArgText text] s) as [[v|[]] s1] eqn:E; try done.
    by destruct (Hb msg s1).
  - intros H2 H1.
    rewrite (wrapped_after_TypeError raw text s s _
               (call_rejected raw [ArgText text; ArgCore] s H2)).
    by rewrite (call_rejected raw [ArgText text] s H1).
Qed.

(** The intent built from a descriptor has the wrapper of the
    function the descriptor gives, and the name the descriptor gives. *)
Lemma intent_from_dict_handler d module plugin_name i :
  _intent_from_dict d module plugin_name = Returned i ->
  exists raw,
    descriptor_handler d module = Some (Func raw) /\
    handler i = _wrapped raw /\ d_name d = Some (name i) /\
    plugin i = plugin_name.
Proof.
  intros (raw & n & exs & Hh & Hn & _ & ->)%intent_from_dict_Returned.
  exists raw. unfold descriptor_handler.
  destruct Hh as [-> | (attr & -> & Ha)]; by repeat split.
Qed.

Lemma discovered_descriptor st files f module d :
  f ∈ files -> visible f -> file_error sp f = None ->
  load_module f = Returned module -> d ∈ _extract_intents module ->
  exists i, _intent_from_dict d module (path_stem f) = Returned i /\
            i ∈ _intents (discover_plugins st files).
Proof.
  intros Hf Hvf Hok Hmod Hd.
  rewrite file_error_build in Hok.
  pose proof (file_intents_build (sp:=sp) f) as Hfi.
  unfold file_build in Hok, Hfi. rewrite Hmod in Hok, Hfi.
  destruct (build_intents_all module (path_stem f) (_extract_intents module) d)
    as (i & Hi & Hin); [|done|].
  { by destruct (snd (build_intents _ _ _)) as [[]|]. }
  exists i. split; [done|]. apply (discovered_intent st files f); try done.
  by rewrite Hfi.
Qed.

Lemma registered_descriptor st files i :
  i ∈ _intents (discover_plugins st files) ->
  exists f module d,
    f ∈ files /\ visible f /\ load_module f = Returned module /\
    d ∈ _extract_intents module /\
    _intent_from_dict d module (path_stem f) = Returned i.
Proof.
  rewrite discover_plugins_intents.
  intros (f & Hf%list_elem_of_In & Hi%list_elem_of_In)%list_elem_of_In%in_flat_map.
  apply list_elem_of_filter in Hf as [Hv Hf].
  rewrite merge_sort_Permutation in Hf.
  rewrite file_intents_build in Hi. unfold file_build in Hi.
  destruct (load_module f) as [module|e] eqn:Em; [|by apply elem_of_nil in Hi].
  apply build_intents_from in Hi as (d & Hd & Hi).
  by exists f, module, d.
Qed.

(** C7. Dispatch calls the function a plugin gives as handler, trying
    it with (text, core), then with (text), then with no argument.
    Every descriptor of a visible file that loads without error, whose
    handler is a function [raw], has become a registered intent of
    the name and plugin of the descriptor whose handler tries [raw]
    in these three ways: when the two-argument signature is accepted
    (and the body raises no TypeError) the result and the session are
    those of the body run on the text and the core; when it is
    rejected and the one-argument signature is accepted, those of the
    body run on the text alone, in the unchanged session; when both
    are rejected, those of the call without arguments. So when
    routing on any core chooses this intent with a score not below
    the floor and [raw] takes the text alone, what [handle] returns
    or raises and the session it leaves are those of the body of
    [raw] run on just the input text. Conversely every registered
    intent comes from such a descriptor and tries the function of
    that descriptor in the three ways. *)
Theorem dispatch_arity_fallback st files :
  (forall f module d raw,
     f ∈ files -> visible f -> file_error sp f = None ->
     load_module f = Returned module -> d ∈ _extract_intents module ->
     descriptor_handler d module = Some (Func raw) ->
     exists i,
       i ∈ _intents (discover_plugins st files) /\
       d_name d = Some (name i) /\ plugin i = path_stem f /\
       tries_arities raw (handler i) /\
       forall c text,
         dispatched c text i ->
         accepts raw 2 = false -> accepts raw 1 = true ->
         no_TypeError (body raw [ArgText text] (session c)) ->
         fst (handle c text) = fst (body raw [ArgText text] (session c)) /\
         session (snd (handle c text)) =
           snd (body raw [ArgText text] (session c))) /\
  (forall i,
     i ∈ _intents (discover_plugins st files) ->
     exists f module d raw,
       f ∈ files /\ visible f /\ load_module f = Returned module /\
       d ∈ _extract_intents module /\
       descriptor_handler d module = Some (Func raw) /\
       d_name d = Some (name i) /\ plugin i = path_stem f /\
       tries_arities raw (handler i)).
Proof.
  split.
  - intros f module d raw Hf Hv Hok Hmod Hd Hraw.
    destruct (discovered_descriptor st files f module d Hf Hv Hok Hmod Hd)
      as (i & Hi & Hin).
    destruct (intent_from_dict_handler _ _ _ _ Hi)
      as (raw' & Hraw' & Hh & Hn & Hp).
    rewrite Hraw in Hraw'. injection Hraw' as <-.
    exists i. split; [done|]. split; [done|]. split; [done|].
    rewrite Hh. split; [apply wrapped_tries_arities|].
    intros c text (b & Hroute & Hb & Hscore) H2 H1 Hbody.
    rewrite (handle_high c text b Hroute Hscore), Hb, Hh.
    destruct (invoke_calls_handler c text (_wrapped raw)) as (-> & -> & _).
    destruct (wrapped_tries_arities raw text (session c)) as (_ & -> & _);
      done.
  - intros i Hi.
    destruct (registered_descriptor st files i Hi)
      as (f & module & d & Hf & Hv & Hmod & Hd & Hfrom).
    destruct (intent_from_dict_handler _ _ _ _ Hfrom)
      as (raw & Hraw & Hh & Hn & Hp).
    exists f, module, d, raw. repeat (split; [done|]).
    rewrite Hh. apply wrapped_tries_arities.
Qed.

End EndToEnd.

Lemma dispatch_arity_fallback_witness :
  accepts Sample.greet 2 = false /\ accepts Sample.greet 1 = true /\
  fst (handle Sample.house "world") = Returned (PyStr "Hello, world") /\
  session (snd (handle Sample.house "world")) =
    <["greeted" := PyStr "world"]> (session Sample.house).
Proof.
  split; [reflexivity|]. split; [reflexivity|].
  destruct (dispatch_arity_fallback (blank Fixture.spacy)
              [Sample.greet_py; Sample.talk_py; Sample.alarm_py]) as [Hcall _].
  destruct (Hcall Sample.greet_py Sample.greet_module Sample.greet_descriptor
              Sample.greet)
    as (i & Hi & Hn & _ & _ & Hdisp).
  { apply list_elem_of_here. }
  { reflexivity. }
  { reflexivity. }
  { reflexivity. }
  { apply list_elem_of_here. }
  { reflexivity. }
  assert (i = Sample.greet_intent) as ->.
  { change (i ∈ [Sample.alarm_intent; Sample.talk_intent; Sample.greet_intent])
      in Hi.
    apply elem_of_cons in Hi as [-> | Hi]; [discriminate Hn|].
    apply elem_of_cons in Hi as [-> | Hi]; [discriminate Hn|].
    by apply list_elem_of_singleton in Hi. }
  destruct (Hdisp Sample.house "world") as [Hr Hs].
  - exists {| intent := Sample.greet_intent;
              score := 1 * (6 # 10) + 1 * (4 # 10); reason := "" |}.
    split; [reflexivity|]. split; [reflexivity|]. intros H. discriminate H.
  - reflexivity.
  - reflexivity.
  - intros msg s. discriminate.
  - rewrite Hr, Hs. split; reflexivity.
Defined.

(** ** Failing and exiting plugins *)

Section Exits.

Context {sp : Spacy}.
Implicit Types (st : JarCore sp) (src : PluginSource) (f : PluginFile).

Lemma load_module_or_exit_file src :
  load_escape src = None ->
  load_module_or_exit src = Finished (load_module (source_file src)).
Proof.
  unfold load_escape, load_module_or_exit, load_module.
  destruct (exec_escape src); [done|].
  destruct (exec_module (source_file src)) as [m|[]]; try done.
  destruct (truthy_name name0) as [pkg|]; [|done].
  destruct (pip_escape src pkg); [done|].
  destruct (pip_install (source_file src) pkg) as [[]|e]; [|done]. simpl.
  by destruct (again_escape src).
Qed.

Lemma load_plugin_file_or_exit_file st src :
  load_escape src = None ->
  _load_plugin_file_or_exit st src = (_load_plugin_file st (source_file src), None).
Proof.
  intros Hn. unfold _load_plugin_file_or_exit, _load_plugin_file,
    load_and_register.
  rewrite (load_module_or_exit_file src Hn).
  destruct (load_module (source_file src)) as [module|e]; [|done].
  by destruct (register_dicts st module _ _) as [[[]|e] st'].
Qed.

Lemma load_plugin_file_or_exit_escape st src b :
  load_escape src = Some b -> _load_plugin_file_or_exit st src = (st, Some b).
Proof.
  unfold load_escape, _load_plugin_file_or_exit.
  destruct (load_module_or_exit src) as [r|b']; [done|]. by intros [= ->].
Qed.

Lemma load_sources_complete st (l : list PluginSource) :
  (forall src, src ∈ l -> loaded src -> load_escape src = None) ->
  load_sources st l = (foldl discover_step st (map source_file l), None).
Proof.
  revert st. induction l as [|src l IH]; intros st Hl; [done|].
  cbn [load_sources map foldl]. unfold discover_step at 2.
  destruct (String.prefix "_" (path_name (source_file src))) eqn:E.
  - apply IH. intros s Hs. apply Hl. by right.
  - rewrite load_plugin_file_or_exit_file by (apply Hl; [left | done]).
    apply IH. intros s Hs. apply Hl. by right.
Qed.

Lemma load_sources_escape st (l : list PluginSource) b :
  snd (load_sources st l) = Some b ->
  exists pre src post,
    l = pre ++ src :: post /\ loaded src /\ load_escape src = Some b /\
    (forall s, s ∈ pre -> loaded s -> load_escape s = None) /\
    fst (load_sources st l) = foldl discover_step st (map source_file pre).
Proof.
  revert st. induction l as [|src l IH]; intros st; [done|].
  cbn [load_sources].
  destruct (String.prefix "_" (path_name (source_file src))) eqn:E.
  - intros (pre & s & post & -> & Hs & Hb & Hpre & Hst)%IH.
    exists (src :: pre), s, post. split; [done|]. split; [done|].
    split; [done|]. split.
    + intros s' [-> | Hs']%elem_of_cons Hv; [|by apply Hpre].
      unfold loaded, visible in Hv. congruence.
    + cbn [map foldl]. unfold discover_step at 2. by rewrite E.
  - destruct (load_escape src) as [b'|] eqn:Eb.
    + rewrite (load_plugin_file_or_exit_escape st src b' Eb). simpl.
      intros [= ->]. exists [], src, l.
      split; [done|]. split; [done|]. split; [done|]. split; [|done].
      by intros s Hs%elem_of_nil.
    + rewrite (load_plugin_file_or_exit_file st src Eb).
      intros (pre & s & post & -> & Hs & Hb & Hpre & Hst)%IH.
      exists (src :: pre), s, post. split; [done|]. split; [done|].
      split; [done|]. split.
      * intros s' [-> | Hs']%elem_of_cons Hv; [done | by apply Hpre].
      * cbn [map foldl]. unfold discover_step at 2. by rewrite E.
Qed.

Lemma load_sources_None st (l : list PluginSource) :
  snd (load_sources st l) = None <->
  forall src, src ∈ l -> loaded src -> load_escape src = None.
Proof.
  split.
  - intros Hn src Hsrc Hv.
    destruct (load_escape src) as [b|] eqn:Eb; [|done]. exfalso.
    revert st Hn. induction l as [|s l IH]; intros st;
      [by apply elem_of_nil in Hsrc|].
    cbn [load_sources]. apply elem_of_cons in Hsrc as [<- | Hsrc].
    + unfold loaded, visible in Hv. rewrite Hv.
      by rewrite (load_plugin_file_or_exit_escape st src b Eb).
    + destruct (String.prefix "_" (path_name (source_file s))); [by apply IH|].
      destruct (_load_plugin_file_or_exit st s) as [st' [b'|]]; [done|].
      by apply IH.
  - intros Hl. by rewrite load_sources_complete.
Qed.

(** The entry of a stem in the error map is the message of a failing
    visible file of that stem. *)
Lemma record_errors_entry (errs : gmap string string) (l : list PluginFile)
    bad e :
  bad ∈ l -> visible bad -> file_error sp bad = Some e ->
  exists f e',
    f ∈ l /\ visible f /\ path_stem f = path_stem bad /\
    file_error sp f = Some e' /\
    foldl (record_error sp) errs l !! path_stem bad = Some (str e').
Proof.
  intros Hin Hv He. induction l as [|x l IH] using rev_ind;
    [by apply elem_of_nil in Hin|].
  rewrite foldl_app. cbn [foldl].
  destruct (decide (visible x /\ path_stem x = path_stem bad /\
                    is_Some (file_error sp x))) as [(Hvx & Hsx & [e' Hex])|Hno].
  - exists x, e'. split; [apply elem_of_app; right; left|].
    split; [done|]. split; [done|]. split; [done|].
    unfold record_error. rewrite decide_True by done.
    rewrite Hex, <- Hsx. apply lookup_insert_eq.
  - assert (bad ∈ l) as Hl.
    { apply elem_of_app in Hin as [?|Hx%list_elem_of_singleton]; [done|].
      subst x. destruct Hno. by rewrite He. }
    destruct (IH Hl) as (f & e' & Hf & Hvf & Hsf & Hef & Hentry).
    exists f, e'. split; [apply elem_of_app; by left|].
    split; [done|]. split; [done|]. split; [done|].
    unfold record_error. destruct (decide (visible x)) as [Hvx|]; [|done].
    destruct (file_error sp x) as [ex|] eqn:Hex; [|done].
    rewrite lookup_insert_ne; [done|]. intros Hsx. apply Hno.
    split; [done|]. split; [done|]. by eexists.
Qed.

Lemma discover_or_exit_complete st (srcs : list PluginSource) :
  snd (discover_plugins_or_exit st srcs) = None ->
  fst (discover_plugins_or_exit st srcs) =
    _build_matchers
      (foldl discover_step (set_intents st [])
         (map source_file (merge_sort source_le srcs))).
Proof.
  unfold discover_plugins_or_exit.
  destruct (load_sources _ _) as [st' [b|]] eqn:El; [done|]. intros _.
  pose proof (proj1 (load_sources_None (set_intents st [])
                       (merge_sort source_le srcs))) as Hn.
  rewrite El in Hn. rewrite load_sources_complete in El by by apply Hn.
  by injection El as <-.
Qed.

Lemma sorted_source src (srcs : list PluginSource) :
  src ∈ srcs -> loaded src ->
  source_file src ∈ map source_file (merge_sort source_le srcs) /\
  visible (source_file src).
Proof.
  intros Hin Hv. split; [|done]. apply list_elem_of_fmap. exists src.
  split; [done|]. by rewrite merge_sort_Permutation.
Qed.

Lemma complete_intents st (srcs : list PluginSource) src i :
  snd (discover_plugins_or_exit st srcs) = None ->
  src ∈ srcs -> loaded src -> i ∈ file_intents sp (source_file src) ->
  i ∈ _intents (fst (discover_plugins_or_exit st srcs)).
Proof.
  intros Hc Hin Hv Hi. rewrite (discover_or_exit_complete st srcs Hc).
  rewrite discover_steps_unfold.
  cbn [_build_matchers set_phrase_matcher set_plugin_errors _intents].
  rewrite register_all_intents. cbn [set_intents _intents app].
  apply list_elem_of_In, in_flat_map. exists (source_file src).
  split; [|by apply list_elem_of_In].
  apply list_elem_of_In, list_elem_of_filter. split; [done|].
  by apply sorted_source.
Qed.

(** C4, as the code has it. [except Exception] isolates the failures
    that are exceptions below [Exception], and no others. Discovery
    runs to completion exactly when loading no visible source raises
    an exception outside [Exception]. When it does run to completion:
    a visible source whose loading raised has, under its stem, the
    message of a failing visible source of that stem in the error
    map, which is its own message when the failing sources of that
    stem all have that message (as when it is the only one); the
    intents every visible source contributes are registered; of a
    source that loads without error every descriptor has become a
    registered intent; and the phrase matcher is the index over the
    registered intents. When loading a source raises an exception
    outside [Exception], discovery ends with that exception at the
    first such source in sorted order: the registered intents are
    those of the visible sources before it, and the phrase matcher
    is not rebuilt. *)
Theorem discover_isolates_failures_unless_exit st (srcs : list PluginSource) :
  (snd (discover_plugins_or_exit st srcs) = None <->
   forall src, src ∈ srcs -> loaded src -> load_escape src = None) /\
  (snd (discover_plugins_or_exit st srcs) = None ->
   (forall bad e,
      bad ∈ srcs -> loaded bad -> file_error sp (source_file bad) = Some e ->
      (exists src e',
         src ∈ srcs /\ loaded src /\
         path_stem (source_file src) = path_stem (source_file bad) /\
         file_error sp (source_file src) = Some e' /\
         _plugin_errors (fst (discover_plugins_or_exit st srcs))
           !! path_stem (source_file bad) = Some (str e')) /\
      ((forall src e',
          src ∈ srcs -> loaded src ->
          path_stem (source_file src) = path_stem (source_file bad) ->
          file_error sp (source_file src) = Some e' -> str e' = str e) ->
       _plugin_errors (fst (discover_plugins_or_exit st srcs))
         !! path_stem (source_file bad) = Some (str e))) /\
   (forall src i,
      src ∈ srcs -> loaded src -> i ∈ file_intents sp (source_file src) ->
      i ∈ _intents (fst (discover_plugins_or_exit st srcs))) /\
   (forall src module d,
      src ∈ srcs -> loaded src -> file_error sp (source_file src) = None ->
      load_module (source_file src) = Returned module ->
      d ∈ _extract_intents module ->
      exists i,
        _intent_from_dict d module (path_stem (source_file src)) = Returned i /\
        i ∈ _intents (fst (discover_plugins_or_exit st srcs))) /\
   _phrase_matcher (fst (discover_plugins_or_exit st srcs)) =
     Some (phrase_index sp
             (_intents (fst (discover_plugins_or_exit st srcs))))) /\
  (forall b,
     snd (discover_plugins_or_exit st srcs) = Some b ->
     exists pre src post,
       merge_sort source_le srcs = pre ++ src :: post /\
       loaded src /\ load_escape src = Some b /\
       (forall s, s ∈ pre -> loaded s -> load_escape s = None) /\
       _intents (fst (discover_plugins_or_exit st srcs)) =
         flat_map (file_intents sp) (filter visible (map source_file pre)) /\
       _phrase_matcher (fst (discover_plugins_or_exit st srcs)) =
         _phrase_matcher st).
Proof.
  split; [|split].
  - unfold discover_plugins_or_exit.
    pose proof (load_sources_None (set_intents st [])
                  (merge_sort source_le srcs)) as Hn.
    destruct (load_sources _ _) as [st' [b|]]; simpl in *.
    + split; [done|]. intros Hall. apply Hn. intros src Hsrc.
      apply Hall. by rewrite merge_sort_Permutation in Hsrc.
    + split; [|done]. intros _ src Hsrc. apply Hn; [done|].
      by rewrite merge_sort_Permutation.
  - intros Hc. split; [|split; [|split]].
    + intros bad e Hbad Hv He.
      assert (exists src e',
        src ∈ srcs /\ loaded src /\
        path_stem (source_file src) = path_stem (source_file bad) /\
        file_error sp (source_file src) = Some e' /\
        _plugin_errors (fst (discover_plugins_or_exit st srcs))
          !! path_stem (source_file bad) = Some (str e')) as Hentry.
      { rewrite (discover_or_exit_complete st srcs Hc), discover_steps_unfold.
        cbn [_build_matchers set_phrase_matcher set_plugin_errors
             _plugin_errors].
        destruct (record_errors_entry (_plugin_errors (set_intents st []))
                    (map source_file (merge_sort source_le srcs))
                    (source_file bad) e)
          as (f & e' & Hf & Hvf & Hsf & Hef & Hl); [|done|done|].
        { by apply sorted_source. }
        apply list_elem_of_fmap in Hf as (src & -> & Hsrc).
        rewrite merge_sort_Permutation in Hsrc. by exists src, e'. }
      split; [done|]. intros Hsame.
      destruct Hentry as (src & e' & Hsrc & Hvs & Hss & Hes & ->).
      by rewrite (Hsame src e').
    + intros src i. by apply complete_intents.
    + intros src module d Hsrc Hv Hok Hmod Hd.
      rewrite file_error_build in Hok.
      pose proof (file_intents_build (sp:=sp) (source_file src)) as Hfi.
      unfold file_build in Hok, Hfi. rewrite Hmod in Hok, Hfi.
      destruct (build_intents_all module (path_stem (source_file src))
                  (_extract_intents module) d) as (i & Hi & Hin); [|done|].
      { by destruct (snd (build_intents _ _ _)) as [[]|]. }
      exists i. split; [done|]. apply (complete_intents st srcs src); try done.
      by rewrite Hfi.
    + by rewrite (discover_or_exit_complete st srcs Hc).
  - intros b. unfold discover_plugins_or_exit.
    pose proof (load_sources_escape (set_intents st [])
                  (merge_sort source_le srcs) b) as He.
    destruct (load_sources _ _) as [st' [b'|]]; [|done]. simpl in *.
    intros [= ->].
    destruct (He eq_refl) as (pre & src & post & Hl & Hv & Hb & Hpre & ->).
    exists pre, src, post. repeat (split; [done|]).
    rewrite discover_steps_unfold.
    cbn [set_plugin_errors _intents _phrase_matcher].
    rewrite register_all_intents.
    by destruct (register_all_rest (set_intents st [])
                   (flat_map (file_intents sp)
                      (filter visible (map source_file pre))))
      as (_ & -> & _).
Qed.

End Exits.

(** C4, counterexample. Of three sources the second calls
    [sys.exit(0)] when it is executed: discovery ends with that
    [SystemExit], only the intent of the chat plugin, loaded before
    it, is registered, the intent the weather plugin contributes is
    not, and the phrase matcher is not built. *)
Lemma discovery_aborted_by_SystemExit :
  snd (discover_plugins_or_exit (blank Fixture.spacy) Escapes.exiting) =
    Some (SystemExit 0) /\
  _intents (fst (discover_plugins_or_exit (blank Fixture.spacy) Escapes.exiting)) =
    [Fixture.chat_intent] /\
  Escapes.undisturbed Fixture.weather_py ∈ Escapes.exiting /\
  file_intents Fixture.spacy Fixture.weather_py = [Fixture.weather_intent] /\
  (Fixture.weather_intent ∉
     _intents (fst (discover_plugins_or_exit (blank Fixture.spacy)
                      Escapes.exiting))) /\
  _phrase_matcher
    (fst (discover_plugins_or_exit (blank Fixture.spacy) Escapes.exiting)) = None.
Proof.
  split; [reflexivity|]. split; [reflexivity|].
  split; [apply list_elem_of_here|]. split; [reflexivity|].
  split; [|reflexivity].
  change (Fixture.weather_intent ∉ [Fixture.chat_intent]).
  intros H%list_elem_of_singleton. discriminate H.
Qed.

Lemma discover_isolates_failures_unless_exit_witness :
  snd (discover_plugins_or_exit (blank Fixture.spacy) Escapes.failing) = None /\
  _plugin_errors (fst (discover_plugins_or_exit (blank Fixture.spacy)
                         Escapes.failing)) !! "broken" =
    Some "invalid syntax" /\
  Fixture.chat_intent ∈
    _intents (fst (discover_plugins_or_exit (blank Fixture.spacy)
                     Escapes.failing)) /\
  Fixture.weather_intent ∈
    _intents (fst (discover_plugins_or_exit (blank Fixture.spacy)
                     Escapes.failing)).
Proof.
  destruct (discover_isolates_failures_unless_exit (blank Fixture.spacy)
              Escapes.failing) as (Hiff & Hdone & _).
  assert (snd (discover_plugins_or_exit (blank Fixture.spacy) Escapes.failing)
          = None) as Hc.
  { apply Hiff. intros src Hsrc _.
    apply elem_of_cons in Hsrc as [-> | Hsrc]; [reflexivity|].
    apply elem_of_cons in Hsrc as [-> | Hsrc]; [reflexivity|].
    apply list_elem_of_singleton in Hsrc as ->. reflexivity. }
  split; [exact Hc|].
  destruct (Hdone Hc) as (Herr & Hint & _).
  split; [|split].
  - destruct (Herr (Escapes.undisturbed Fixture.broken_py)
                (OtherException "invalid syntax")) as [_ Hown].
    + apply list_elem_of_further, list_elem_of_here.
    + reflexivity.
    + reflexivity.
    + apply Hown. intros src e' Hsrc _ Hstem He.
      apply elem_of_cons in Hsrc as [-> | Hsrc]; [discriminate Hstem|].
      apply elem_of_cons in Hsrc as [-> | Hsrc];
        [by injection He as <-|].
      apply list_elem_of_singleton in Hsrc as ->. discriminate Hstem.
  - apply (Hint (Escapes.undisturbed Fixture.chat_py)).
    + do 2 apply list_elem_of_further. apply list_elem_of_here.
    + reflexivity.
    + apply list_elem_of_here.
  - apply (Hint (Escapes.undisturbed Fixture.weather_py)).
    + apply list_elem_of_here.
    + reflexivity.
    + apply list_elem_of_here.
Defined.

(** * Scores in binary64 *)

(** ** Rounding *)

Lemma rne_cases (x : Q) : B64.rne x = Qfloor x \/ B64.rne x = (Qfloor x + 1)%Z.
Proof.
  unfold B64.rne. destruct (x - inject_Z (Qfloor x) ?= 1 # 2)%Q; auto.
  destruct (Z.even (Qfloor x)); auto.
Qed.

Lemma rne_nonneg (x : Q) : (0 <= x)%Q -> (0 <= B64.rne x)%Z.
Proof.
  intros Hx. apply Qfloor_resp_le in Hx. change (Qfloor 0) with 0%Z in Hx.
  destruct (rne_cases x) as [-> | ->]; lia.
Qed.

Lemma rne_le_int (x : Q) (k : Z) : (x <= inject_Z k)%Q -> (B64.rne x <= k)%Z.
Proof.
  intros Hx. pose proof (Qfloor_resp_le _ _ Hx) as Hf. rewrite Qfloor_Z in Hf.
  destruct (Z.eq_dec (Qfloor x) k) as [E|E].
  - unfold B64.rne.
    assert (x - inject_Z (Qfloor x) <= 0)%Q as H0 by (rewrite E; lra).
    destruct (Qcompare_spec (x - inject_Z (Qfloor x)) (1 # 2)) as [H|H|H];
      [lra | lia | lra].
  - destruct (rne_cases x) as [-> | ->]; lia.
Qed.

Lemma pow2_pos (e : Z) : (0 < B64.pow2 e)%Q.
Proof. by apply Qpower_0_lt. Qed.

Lemma pow2_add (a b : Z) : (B64.pow2 (a + b) == B64.pow2 a * B64.pow2 b)%Q.
Proof. by apply Qpower_plus. Qed.

Lemma pow2_int (e : Z) : (0 <= e)%Z -> (B64.pow2 e == inject_Z (2 ^ e))%Q.
Proof. intros He. symmetry. apply (Zpower_Qpower 2 e He). Qed.

Lemma pow2_le_1 (e : Z) : (B64.pow2 e <= 1)%Q -> (e <= 0)%Z.
Proof.
  intros H. apply (Qpower_le_compat_l_inv 2 e 0); [exact H | reflexivity].
Qed.

Lemma pow2_lt_1 (e : Z) : (B64.pow2 e < 1)%Q -> (e < 0)%Z.
Proof.
  intros H. apply (Qpower_lt_compat_l_inv 2 e 0); [exact H | reflexivity].
Qed.

Lemma log2_ratio (x : Q) :
  (0 < x)%Q -> (x <= 1)%Q ->
  (Z.log2 (Qnum x) - Z.log2 (Zpos (Qden x)) <= 0)%Z.
Proof.
  destruct x as [n d]. unfold Qlt, Qle. cbn [Qnum Qden]. intros Hn Hd.
  assert (n <= Z.pos d)%Z as Hle by lia.
  pose proof (Z.log2_le_mono n (Z.pos d) Hle). lia.
Qed.

Lemma flog2_le_0 (x : Q) : (0 < x)%Q -> (x <= 1)%Q -> (B64.flog2 x <= 0)%Z.
Proof.
  intros H0 H1. pose proof (log2_ratio x H0 H1) as He. unfold B64.flog2.
  destruct (Qle_bool _ x) eqn:E; [|lia].
  apply Qle_bool_iff in E. apply pow2_le_1. lra.
Qed.

Lemma flog2_lt_0 (x : Q) : (0 < x)%Q -> (x < 1)%Q -> (B64.flog2 x <= -1)%Z.
Proof.
  intros H0 H1. pose proof (log2_ratio x H0 (Qlt_le_weak _ _ H1)) as He.
  unfold B64.flog2. destruct (Qle_bool _ x) eqn:E; [|lia].
  apply Qle_bool_iff in E.
  assert (B64.pow2 (Z.log2 (Qnum x) - Z.log2 (Z.pos (Qden x)))%Z < 1)%Q as Hp
    by lra.
  apply pow2_lt_1 in Hp. lia.
Qed.

Lemma Qabs_of_pos (x : Q) : (0 < x)%Q -> Qabs x = x.
Proof.
  destruct x as [n d]. unfold Qlt. simpl. intros H.
  unfold Qabs. f_equal. lia.
Qed.

Lemma ulp_exp_le (x : Q) : (0 < x)%Q -> (x <= 1)%Q -> (B64.ulp_exp x <= -52)%Z.
Proof.
  intros H0 H1. unfold B64.ulp_exp. rewrite (Qabs_of_pos x H0).
  pose proof (flog2_le_0 x H0 H1). lia.
Qed.

Lemma ulp_exp_lt (x : Q) : (0 < x)%Q -> (x < 1)%Q -> (B64.ulp_exp x <= -53)%Z.
Proof.
  intros H0 H1. unfold B64.ulp_exp. rewrite (Qabs_of_pos x H0).
  pose proof (flog2_lt_0 x H0 H1). lia.
Qed.

Lemma round_nonneg (x : Q) : (0 <= x)%Q -> (0 <= B64.round x)%Q.
Proof.
  intros Hx. unfold B64.round. destruct (Qeq_bool x 0); [lra|].
  apply Qmult_le_0_compat; [|apply Qlt_le_weak, pow2_pos].
  change 0%Q with (inject_Z 0). rewrite <- Zle_Qle. apply rne_nonneg.
  apply Qle_shift_div_l; [apply pow2_pos | lra].
Qed.

Lemma round_le_grid (x : Q) (k j : Z) :
  (x <= inject_Z k * B64.pow2 j)%Q ->
  (~ (x == 0)%Q -> (B64.ulp_exp x <= j)%Z) ->
  (B64.round x <= inject_Z k * B64.pow2 j)%Q.
Proof.
  intros Hx He. unfold B64.round.
  destruct (Qeq_bool x 0) eqn:E0.
  { apply Qeq_bool_iff in E0. lra. }
  assert (~ (x == 0)%Q) as Hne.
  { intros H. apply Qeq_bool_iff in H. congruence. }
  specialize (He Hne). set (e := B64.ulp_exp x) in *.
  pose proof (pow2_pos e) as Hpe.
  assert (B64.pow2 j == inject_Z (2 ^ (j - e)) * B64.pow2 e)%Q as Hj.
  { rewrite <- pow2_int by lia. rewrite <- pow2_add. by replace (j - e + e)%Z with j by lia. }
  assert (B64.rne (x / B64.pow2 e) <= k * 2 ^ (j - e))%Z as Hr.
  { apply rne_le_int. apply Qle_shift_div_r; [done|].
    rewrite inject_Z_mult, <- Qmult_assoc, <- Hj. done. }
  rewrite Hj, Qmult_assoc, <- inject_Z_mult.
  apply Qmult_le_compat_r; [|lra]. by rewrite <- Zle_Qle.
Qed.

Lemma c06_grid : (B64.c06 == inject_Z 5404319552844595 * B64.pow2 (-53))%Q.
Proof. apply Qeq_bool_eq. vm_compute. reflexivity. Qed.

Lemma c04_grid : (B64.c04 == inject_Z 3602879701896397 * B64.pow2 (-53))%Q.
Proof. apply Qeq_bool_eq. vm_compute. reflexivity. Qed.

Lemma c06_c04 : (B64.c06 + B64.c04 == 1)%Q.
Proof. apply Qeq_bool_eq. vm_compute. reflexivity. Qed.

Lemma c06_pos : (0 < B64.c06)%Q.
Proof. vm_compute. reflexivity. Qed.

Lemma c06_lt_1 : (B64.c06 < 1)%Q.
Proof. vm_compute. reflexivity. Qed.

Lemma one_grid : (1 == inject_Z (2 ^ 52) * B64.pow2 (-52))%Q.
Proof. apply Qeq_bool_eq. vm_compute. reflexivity. Qed.

Lemma mul_c06_bounds (s : Q) :
  (0 <= s <= 1)%Q -> (0 <= B64.mul s B64.c06 <= B64.c06)%Q.
Proof.
  intros [H0 H1]. pose proof c06_pos as Hc. pose proof c06_lt_1 as Hc1.
  assert (0 <= s * B64.c06)%Q as Hlo by (apply Qmult_le_0_compat; lra).
  assert (s * B64.c06 <= B64.c06)%Q as Hhi.
  { rewrite <- (Qmult_1_l B64.c06) at 2. apply Qmult_le_compat_r; lra. }
  unfold B64.mul. split; [by apply round_nonneg|].
  rewrite c06_grid at 2. apply round_le_grid.
  - by rewrite <- c06_grid.
  - intros Hne. apply ulp_exp_lt; lra.
Qed.

Lemma mul_hit_c04_bounds (p : Q) :
  p = 1%Q \/ p = 0%Q -> (0 <= B64.mul p B64.c04 <= B64.c04)%Q.
Proof.
  intros [-> | ->]; split; apply Qle_bool_iff; vm_compute; reflexivity.
Qed.

Lemma final_score_b64_bounds (s p : Q) :
  (0 <= s <= 1)%Q -> p = 1%Q \/ p = 0%Q ->
  (0 <= final_score_b64 s p <= 1)%Q.
Proof.
  intros Hs Hp. unfold final_score_b64.
  pose proof (mul_c06_bounds s Hs) as Ha.
  pose proof (mul_hit_c04_bounds p Hp) as Hb.
  pose proof c06_c04 as Hsum.
  set (a := B64.mul s B64.c06) in *. set (b := B64.mul p B64.c04) in *.
  unfold B64.add. split; [apply round_nonneg; lra|].
  rewrite one_grid. apply round_le_grid.
  - rewrite <- one_grid. lra.
  - intros Hne. apply ulp_exp_le; lra.
Qed.

(** The model of the doubles agrees with the primitive floats of
    the kernel on the constants of the formula and on scores of
    similarities of all sizes and both signs, down to the subnormal
    numbers. *)
Lemma final_score_b64_agrees_with_floats :
  is_float B64.c06 (PrimFloat.div 6%float 10%float) = true /\
  is_float B64.c04 (PrimFloat.div 4%float 10%float) = true /\
  Forall (fun '(s, p) =>
    match float_value s, float_value p with
    | Some qs, Some qp =>
        is_float (final_score_b64 qs qp) (final_score_float s p) = true
    | _, _ => False
    end)
    [ (PrimFloat.div 1%float 3%float, 1%float); (PrimFloat.div 1%float 3%float, 0%float);
      (PrimFloat.div 2%float 3%float, 1%float); (PrimFloat.div 1%float 10%float, 0%float);
      (PrimFloat.div 7%float 10%float, 1%float); (1%float, 1%float); (0%float, 0%float);
      (PrimFloat.opp (PrimFloat.div 1%float 3%float), 1%float);
      (PrimFloat.opp (PrimFloat.div 7%float 10%float), 0%float);
      (FloatOps.Z.ldexp 1%float (-60)%Z, 1%float);
      (PrimFloat.opp (FloatOps.Z.ldexp 1%float (-60)%Z), 1%float);
      (FloatOps.Z.ldexp (PrimFloat.div 1%float 3%float) (-1060)%Z, 0%float);
      (FloatOps.Z.ldexp 3%float (-1074)%Z, 0%float);
      (FloatOps.Z.ldexp 1%float (-1074)%Z, 0%float);
      (FloatOps.Z.ldexp (PrimFloat.div 1%float 3%float) 900%Z, 1%float) ].
Proof.
  split; [vm_compute; reflexivity|]. split; [vm_compute; reflexivity|].
  repeat constructor; vm_compute; reflexivity.
Qed.

(** ** The score of every intent *)

Section FloatScores.

Context {sp : Spacy}.
Implicit Types (st : JarCore sp) (i : Intent) (m : IntentMatch).

Lemma score_intent_b64_Returned st doc hits i m :
  score_intent_b64 st doc hits i = Returned m ->
  intent m = i /\
  exists sims,
    similarities st doc (name i) (examples i) = Returned sims /\
    score m = final_score_b64 (max_or_zero sims) (p_score_of hits i).
Proof.
  unfold score_intent_b64.
  destruct (similarities st doc (name i) (examples i)) as [sims|e]; [|done].
  simpl. intros [= <-]. split; [done|]. by exists sims.
Qed.

(** C5, as the code has it. The final score is a float: it is the
    double nearest to the sum of the double nearest to the semantic
    score times the double 0.6 and the double nearest to the lexical
    hit times the double 0.4, which is not in general the rational
    0.6 s + 0.4 p. With a similarity that never raises and an
    embedding cached for every registered example, every registered
    intent is scored, in registration order. Whenever the intents are
    scored, whatever the values of the similarity, the final score of
    each is this rounded combination of its semantic score, the
    greatest similarity of the input with a usable example embedding
    of the intent (0 without one), and its lexical hit, 1 when the
    phrase index reports the intent and 0 otherwise. When the
    similarity lies in [0,1], every final score lies in [0,1]. *)
Theorem final_score_formula_b64 st text :
  (similarity_total sp -> cache_complete st ->
   exists ms, matches_b64 st text = Returned ms) /\
  (forall ms,
     matches_b64 st text = Returned ms ->
     Forall2 (fun i m =>
       intent m = i /\
       exists s p,
         semantic_score st (nlp sp text) i s /\
         lexical_hit st (nlp sp text) i p /\
         score m = B64.add (B64.mul s B64.c06) (B64.mul p B64.c04))
       (_intents st) ms) /\
  (similarity_in_unit sp ->
   forall ms m,
     matches_b64 st text = Returned ms -> m ∈ ms -> (0 <= score m <= 1)%Q).
Proof.
  unfold matches_b64.
  set (doc := nlp sp text). set (hits := phrase_hits st doc).
  split; [|split].
  - intros Hsim Hc.
    assert (Hall : Forall (fun i => i ∈ _intents st) (_intents st))
      by by apply Forall_forall.
    revert Hall. generalize (_intents st) at 2 3 as l.
    induction l as [|i l IH]; intros Hall; [by exists []|].
    apply Forall_cons in Hall as [Hi Hall]. destruct (IH Hall) as [ms Hms].
    destruct (similarities_never_KeyError st doc i Hsim) as [sims Hsims].
    { intros ex Hex. by apply Hc. }
    eexists. apply mapM_Returned. constructor; [|by apply mapM_Returned].
    unfold score_intent_b64. by rewrite Hsims.
  - intros ms Hms%mapM_Returned.
    eapply Forall2_impl; [exact Hms|]. intros i m Hm.
    apply score_intent_b64_Returned in Hm as (Hi & sims & Hsims & Hscore).
    split; [done|]. exists (max_or_zero sims), (p_score_of hits i).
    split; [by apply max_or_zero_semantic|].
    split; [apply p_score_lexical | done].
  - intros Hunit ms m Hms%mapM_Returned Hin.
    apply list_elem_of_lookup in Hin as [k Hk].
    destruct (Forall2_lookup_r _ _ _ _ _ Hms Hk) as (i & _ & Hm).
    apply score_intent_b64_Returned in Hm as (Hi & sims & Hsims & ->).
    apply final_score_b64_bounds.
    + apply (semantic_score_bounds st doc i); [done|].
      by apply max_or_zero_semantic.
    + unfold p_score_of. case_bool_decide; [by left | by right].
Qed.

End FloatScores.

(** C5, counterexample. With a similarity of 2^-60 and a phrase hit
    the final score of the chat intent is the double 0.4: it is not
    0.6 times the semantic score plus 0.4 times the lexical hit,
    neither with the decimals 0.6 and 0.4 nor with the doubles
    nearest to them. *)
Lemma final_score_is_rounded :
  matches_b64 Faint.core "hello" =
    Returned [ {| intent := Fixture.chat_intent;
                  score := final_score_b64 Faint.similarity_value 1;
                  reason := "" |} ] /\
  semantic_score Faint.core "hello" Fixture.chat_intent Faint.similarity_value /\
  lexical_hit Faint.core "hello" Fixture.chat_intent 1 /\
  (final_score_b64 Faint.similarity_value 1 == B64.c04)%Q /\
  ~ (final_score_b64 Faint.similarity_value 1 ==
       (6 # 10) * Faint.similarity_value + (4 # 10) * 1)%Q /\
  ~ (final_score_b64 Faint.similarity_value 1 ==
       B64.c06 * Faint.similarity_value + B64.c04 * 1)%Q.
Proof.
  split; [vm_compute; reflexivity|].
  split.
  { exact (max_or_zero_semantic Faint.core "hello" Fixture.chat_intent
             (replicate 4 Faint.similarity_value) eq_refl). }
  split; [exact (p_score_lexical Faint.core "hello" Fixture.chat_intent)|].
  split; [apply Qeq_bool_eq; vm_compute; reflexivity|].
  split; apply Qeq_bool_neq; vm_compute; reflexivity.
Qed.

Lemma final_score_formula_b64_witness :
  exists ms,
    matches_b64 Fixture.core3 "hello" = Returned ms /\
    forall m, m ∈ ms -> (0 <= score m <= 1)%Q.
Proof.
  destruct (final_score_formula_b64 Fixture.core3 "hello")
    as (Htotal & _ & Hunit).
  destruct Htotal as [ms Hms].
  - intros d d'. by eexists.
  - apply discover_cache_complete.
  - exists ms. split; [exact Hms|]. intros m Hm.
    apply (Hunit fixture_similarity_in_unit ms m Hms Hm).
Defined.
